(** * The Porter stemmer of [a.py], embedded with the semantics of the
    Python fragment it is written in.

    [a.py] is a port of the class-based Porter stemmer to module-level
    functions.  The cursors that the class kept in [self] became
    parameters, and the functions assign to them as to ordinary local
    names.  What the program does is therefore decided by how Python binds
    names and calls functions, so the embedding keeps both: every function
    body is a state transformer on the _frame_ of its own activation, names
    are read from the frame or from the module namespace, and a call binds
    the argument values to the parameters in a fresh frame, failing when
    their numbers differ.

    The functions are read one [def] at a time.  As a file, [a.py] is
    refused by Python for the indentation of its line 193 (see [A.repair]);
    all results below hold under each way of putting that line right. *)

From Stdlib Require Import ZArith List String Ascii Bool Lia.
Import ListNotations.

Local Open Scope Z_scope.
Local Open Scope string_scope.

(** ** Values, exceptions, frames *)

Module Py.

(** The objects the program handles: [int], [str], [bool] and [None]. *)
Inductive val : Type :=
| VInt (n : Z)
| VStr (s : string)
| VBool (b : bool)
| VNone.

(** Why a [TypeError] was raised. *)
Inductive type_error : Type :=
| Arity (f : string) (params args : nat) (* call with the wrong number of arguments *)
| Operand (op : string).                 (* operator applied to the wrong kind of object *)

(** The exceptions of the fragment.  [OutOfFuel] is not a Python exception:
    it marks a run that the bound on loop iterations and call depth cut
    short. *)
Inductive exn : Type :=
| NameError (x : string)
| UnboundLocalError (x : string)
| TypeError (why : type_error)
| IndexError
| OutOfFuel.

Inductive res (A : Type) : Type :=
| Ok (a : A)
| Err (e : exn).
Arguments Ok {A} a.
Arguments Err {A} e.

Definition bind {A B} (x : res A) (f : A -> res B) : res B :=
  match x with
  | Ok a => f a
  | Err e => Err e
  end.

Notation "'let*' x ':=' e1 'in' e2" := (bind e1 (fun x => e2))
  (at level 10, x name, e1 at level 100, e2 at level 200).

(** A frame (and the module namespace) binds names to objects. *)
Definition frame : Type := list (string * val).

Fixpoint lookup (x : string) (fr : frame) : option val :=
  match fr with
  | [] => None
  | (y, v) :: fr' => if String.eqb x y then Some v else lookup x fr'
  end.

Fixpoint update (x : string) (v : val) (fr : frame) : frame :=
  match fr with
  | [] => [(x, v)]
  | (y, w) :: fr' =>
      if String.eqb x y then (y, v) :: fr' else (y, w) :: update x v fr'
  end.

(** Binding of arguments to parameters; [None] when their numbers differ. *)
Fixpoint bind_params (ps : list string) (vs : list val) : option frame :=
  match ps, vs with
  | [], [] => Some []
  | p :: ps', v :: vs' =>
      match bind_params ps' vs' with
      | Some fr => Some ((p, v) :: fr)
      | None => None
      end
  | _, _ => None
  end.

(** ** Operations on objects *)

(** [bool] is a subclass of [int]. *)
Definition as_int (v : val) : option Z :=
  match v with
  | VInt n => Some n
  | VBool b => Some (if b then 1 else 0)
  | _ => None
  end.

Definition truthy (v : val) : bool :=
  match v with
  | VInt n => negb (Z.eqb n 0)
  | VStr s => negb (String.eqb s "")
  | VBool b => b
  | VNone => false
  end.

Definition len (s : string) : Z := Z.of_nat (String.length s).

(** [s[i]]: a negative index counts from the end. *)
Definition py_index (s : string) (i : Z) : res val :=
  let n := len s in
  if (Z.ltb i (- n) || Z.leb n i)%bool then Err IndexError
  else
    match String.get (Z.to_nat (if Z.ltb i 0 then i + n else i)) s with
    | Some c => Ok (VStr (String c ""))
    | None => Err IndexError
    end.

(** A slice bound, clamped the way Python clamps it. *)
Definition clamp (n x : Z) : Z :=
  if Z.ltb x 0 then Z.max (x + n) 0 else Z.min x n.

(** [s[lo:hi]], either bound possibly absent. *)
Definition py_slice (s : string) (lo hi : option Z) : string :=
  let n := len s in
  let a := match lo with Some x => clamp n x | None => 0 end in
  let b := match hi with Some x => clamp n x | None => n end in
  String.substring (Z.to_nat a) (Z.to_nat (b - a)) s.

Definition py_add (v w : val) : res val :=
  match v, w with
  | VStr s, VStr t => Ok (VStr (s ++ t))
  | _, _ =>
      match as_int v, as_int w with
      | Some a, Some b => Ok (VInt (a + b))
      | _, _ => Err (TypeError (Operand "+"))
      end
  end.

Definition py_sub (v w : val) : res val :=
  match as_int v, as_int w with
  | Some a, Some b => Ok (VInt (a - b))
  | _, _ => Err (TypeError (Operand "-"))
  end.

(** [==] never raises: objects of different kinds are unequal. *)
Definition py_eq (v w : val) : bool :=
  match v, w with
  | VStr s, VStr t => String.eqb s t
  | VNone, VNone => true
  | _, _ =>
      match as_int v, as_int w with
      | Some a, Some b => Z.eqb a b
      | _, _ => false
      end
  end.

(** The order comparisons, on two numbers or on two strings. *)
Definition py_order (op : string) (v w : val) : res comparison :=
  match v, w with
  | VStr s, VStr t => Ok (String.compare s t)
  | _, _ =>
      match as_int v, as_int w with
      | Some a, Some b => Ok (Z.compare a b)
      | _, _ => Err (TypeError (Operand op))
      end
  end.

(** ** Expressions and statements *)

(** What running a statement leads to.  A [return] carries the frame of
    the activation as it was when the function returned. *)
Inductive outcome : Type :=
| Next (fr : frame)               (* control falls to the next statement *)
| Broke (fr : frame)              (* [break] *)
| Returned (v : val) (fr : frame) (* [return v] *)
| Raised (e : exn).

(** The surroundings of an activation: the module namespace, the meaning
    of a call to a function of the module, the bound on loop iterations. *)
Record env : Type := Env {
  globals : frame;
  callf : string -> list val -> res val;
  fuel : nat
}.

Definition expr : Type := env -> frame -> res val.
Definition stmt : Type := env -> frame -> outcome.

Definition Int (n : Z) : expr := fun _ _ => Ok (VInt n).
Definition Str (s : string) : expr := fun _ _ => Ok (VStr s).

(** A name that the function binds (a parameter or an assigned name). *)
Definition Loc (x : string) : expr := fun _ fr =>
  match lookup x fr with
  | Some v => Ok v
  | None => Err (UnboundLocalError x)
  end.

(** A name that the function only reads: looked up in the module namespace. *)
Definition Glob (x : string) : expr := fun E _ =>
  match lookup x (globals E) with
  | Some v => Ok v
  | None => Err (NameError x)
  end.

Definition binop (f : val -> val -> res val) (a b : expr) : expr := fun E fr =>
  let* v := a E fr in let* w := b E fr in f v w.

Definition Add : expr -> expr -> expr := binop py_add.
Definition Sub : expr -> expr -> expr := binop py_sub.
Definition CmpEq : expr -> expr -> expr :=
  binop (fun v w => Ok (VBool (py_eq v w))).
Definition CmpNe : expr -> expr -> expr :=
  binop (fun v w => Ok (VBool (negb (py_eq v w)))).
Definition CmpLt : expr -> expr -> expr :=
  binop (fun v w => let* c := py_order "<" v w in
                    Ok (VBool (match c with Lt => true | _ => false end))).
Definition CmpGt : expr -> expr -> expr :=
  binop (fun v w => let* c := py_order ">" v w in
                    Ok (VBool (match c with Gt => true | _ => false end))).
Definition CmpLe : expr -> expr -> expr :=
  binop (fun v w => let* c := py_order "<=" v w in
                    Ok (VBool (match c with Gt => false | _ => true end))).

Definition Not (a : expr) : expr := fun E fr =>
  let* v := a E fr in Ok (VBool (negb (truthy v))).

(** [a or b] and [a and b] yield one of their operands and evaluate the
    second only when the first does not decide. *)
Definition Or (a b : expr) : expr := fun E fr =>
  let* v := a E fr in if truthy v then Ok v else b E fr.
Definition And (a b : expr) : expr := fun E fr =>
  let* v := a E fr in if truthy v then b E fr else Ok v.

Definition Index (a i : expr) : expr := fun E fr =>
  let* v := a E fr in let* w := i E fr in
  match v, as_int w with
  | VStr s, Some n => py_index s n
  | _, _ => Err (TypeError (Operand "[]"))
  end.

(** The value of a slice bound that is written ([None] when it is absent). *)
Definition bound (o : option expr) (E : env) (fr : frame) : res val :=
  match o with
  | None => Ok VNone
  | Some e => e E fr
  end.

(** A slice bound must be an integer or [None]. *)
Definition slice_bound (v : val) : option (option Z) :=
  match v with
  | VNone => Some None
  | _ => match as_int v with
         | Some n => Some (Some n)
         | None => None
         end
  end.

(** [a[lo:hi]]: [a] and the bounds are evaluated, then the string is
    sliced. *)
Definition Slice (a : expr) (lo hi : option expr) : expr := fun E fr =>
  let* v := a E fr in let* l := bound lo E fr in let* h := bound hi E fr in
  match v, slice_bound l, slice_bound h with
  | VStr s, Some x, Some y => Ok (VStr (py_slice s x y))
  | _, _, _ => Err (TypeError (Operand "[:]"))
  end.

Definition Len (a : expr) : expr := fun E fr =>
  let* v := a E fr in
  match v with
  | VStr s => Ok (VInt (len s))
  | _ => Err (TypeError (Operand "len"))
  end.

Fixpoint evals (es : list expr) (E : env) (fr : frame) : res (list val) :=
  match es with
  | [] => Ok []
  | e :: es' => let* v := e E fr in let* vs := evals es' E fr in Ok (v :: vs)
  end.

(** [f(e1, ..., en)]: the arguments are evaluated from left to right in
    the caller's frame, then the callee runs on their values. *)
Definition Call (f : string) (args : list expr) : expr := fun E fr =>
  let* vs := evals args E fr in callf E f vs.

Definition Pass : stmt := fun _ fr => Next fr.
Definition Break : stmt := fun _ fr => Broke fr.

Definition Assign (x : string) (e : expr) : stmt := fun E fr =>
  match e E fr with
  | Ok v => Next (update x v fr)
  | Err ex => Raised ex
  end.

(** An expression statement: the value is dropped. *)
Definition Do (e : expr) : stmt := fun E fr =>
  match e E fr with
  | Ok _ => Next fr
  | Err ex => Raised ex
  end.

Definition Return (e : expr) : stmt := fun E fr =>
  match e E fr with
  | Ok v => Returned v fr
  | Err ex => Raised ex
  end.

Definition ReturnNone : stmt := fun _ fr => Returned VNone fr.

Definition Seq (s1 s2 : stmt) : stmt := fun E fr =>
  match s1 E fr with
  | Next fr' => s2 E fr'
  | o => o
  end.

Definition IfElse (c : expr) (s1 s2 : stmt) : stmt := fun E fr =>
  match c E fr with
  | Ok v => if truthy v then s1 E fr else s2 E fr
  | Err ex => Raised ex
  end.

Definition IfThen (c : expr) (s : stmt) : stmt := IfElse c s Pass.

Fixpoint while_loop (n : nat) (c : expr) (s : stmt) (E : env) (fr : frame)
  : outcome :=
  match n with
  | O => Raised OutOfFuel
  | S n' =>
      match c E fr with
      | Err ex => Raised ex
      | Ok v =>
          if truthy v then
            match s E fr with
            | Next fr' => while_loop n' c s E fr'
            | Broke fr' => Next fr'
            | o => o
            end
          else Next fr
      end
  end.

Definition While (c : expr) (s : stmt) : stmt := fun E fr =>
  while_loop (fuel E) c s E fr.

Fixpoint for_loop (n : nat) (x : string) (i : Z) (s : stmt) (E : env)
  (fr : frame) : outcome :=
  match n with
  | O => Next fr
  | S n' =>
      match s E (update x (VInt i) fr) with
      | Next fr' => for_loop n' x (i + 1) s E fr'
      | Broke fr' => Next fr'
      | o => o
      end
  end.

(** [for x in range(lo, hi): s] *)
Definition ForRange (x : string) (lo hi : expr) (s : stmt) : stmt := fun E fr =>
  match lo E fr with
  | Err ex => Raised ex
  | Ok v =>
      match hi E fr with
      | Err ex => Raised ex
      | Ok w =>
          match as_int v, as_int w with
          | Some a, Some b => for_loop (Z.to_nat (b - a)) x a s E fr
          | _, _ => Raised (TypeError (Operand "range"))
          end
      end
  end.

(** ** Functions *)

Record fundef : Type := Def {
  params : list string;
  body : stmt
}.

Definition result_of (o : outcome) : res val :=
  match o with
  | Next _ | Broke _ => Ok VNone
  | Returned v _ => Ok v
  | Raised e => Err e
  end.

Section Calls.

(** The functions that the module defines, by name. *)
Variable defs : string -> option fundef.
(** The module namespace apart from the functions. *)
Variable G : frame.

(** One activation of [f] on the argument values [vs], to its last
    statement.  [n] bounds the depth of the calls below it and the
    iterations of each loop. *)
Fixpoint activation (n : nat) (f : string) (vs : list val) : outcome :=
  match n with
  | O => Raised OutOfFuel
  | S n' =>
      match defs f with
      | None => Raised (NameError f)
      | Some d =>
          match bind_params (params d) vs with
          | None =>
              Raised (TypeError (Arity f (List.length (params d))
                                        (List.length vs)))
          | Some fr =>
              body d (Env G (fun g ws => result_of (activation n' g ws)) n) fr
          end
      end
  end.

(** What the caller of [f] gets: the returned object, or the exception.
    The frame of the activation is gone. *)
Definition call (n : nat) (f : string) (vs : list val) : res val :=
  result_of (activation n f vs).

(** The surroundings in which the body of an activation at depth [S n] runs. *)
Definition env_at (n : nat) : env := Env G (call n) (S n).

End Calls.

(** Python's operators, for writing the program the way [a.py] does.  [or],
    [and] and [not] are written [\/], [/\] and [~]: like them they bind
    less tightly than the comparisons. *)
Declare Scope py_scope.
Delimit Scope py_scope with py.
Notation "a + b" := (Add a b) : py_scope.
Notation "a - b" := (Sub a b) : py_scope.
Notation "a == b" := (CmpEq a b) (at level 70, no associativity) : py_scope.
Notation "a != b" := (CmpNe a b) (at level 70, no associativity) : py_scope.
Notation "a < b" := (CmpLt a b) : py_scope.
Notation "a > b" := (CmpGt a b) : py_scope.
Notation "a <= b" := (CmpLe a b) : py_scope.
Notation "a \/ b" := (Or a b) : py_scope.
Notation "a /\ b" := (And a b) : py_scope.
Notation "~ a" := (Not a) : py_scope.
Notation "x ::= e" := (Assign x e) (at level 90, no associativity) : py_scope.
Notation "s1 ;; s2" := (Seq s1 s2) (at level 95, right associativity) : py_scope.

End Py.
(** ** The program *)

(** The functions of [a.py], statement for statement.  A name is read with
    [Loc] when the function binds it (as a parameter or by assignment) and
    with [Glob] otherwise, which is how Python resolves it. *)
Module A.
Import Py.
Local Open Scope py_scope.

(** [__init__] binds the four names as locals of its own; nothing calls it. *)
Definition __init__ : fundef := Def [] (
  "word" ::= Str "" ;;
  "k" ::= Int 0 ;;
  "k0" ::= Int 0 ;;
  "offset" ::= Int 0).

Definition cons : fundef := Def ["i"; "word"; "k0"] (
  IfThen (Index (Loc "word") (Loc "i") == Str "a"
          \/ Index (Loc "word") (Loc "i") == Str "e"
          \/ Index (Loc "word") (Loc "i") == Str "i"
          \/ Index (Loc "word") (Loc "i") == Str "o"
          \/ Index (Loc "word") (Loc "i") == Str "u")
    (Return (Int 0)) ;;
  IfThen (Index (Loc "word") (Loc "i") == Str "y")
    (IfElse (Loc "i" == Loc "k0")
       (Return (Int 1))
       (Return (~ Call "cons" [Loc "i" - Int 1]))) ;;
  Return (Int 1)).

Definition m : fundef := Def ["k0"; "offset"] (
  "n" ::= Int 0 ;;
  "i" ::= Loc "k0" ;;
  While (Int 1) (
    IfThen (Loc "i" > Loc "offset") (Return (Loc "n")) ;;
    IfThen (~ Call "cons" [Loc "i"]) Break ;;
    "i" ::= Loc "i" + Int 1) ;;
  "i" ::= Loc "i" + Int 1 ;;
  While (Int 1) (
    While (Int 1) (
      IfThen (Loc "i" > Loc "offset") (Return (Loc "n")) ;;
      IfThen (Call "cons" [Loc "i"]) Break ;;
      "i" ::= Loc "i" + Int 1) ;;
    "i" ::= Loc "i" + Int 1 ;;
    "n" ::= Loc "n" + Int 1 ;;
    While (Int 1) (
      IfThen (Loc "i" > Loc "offset") (Return (Loc "n")) ;;
      IfThen (~ Call "cons" [Loc "i"]) Break ;;
      "i" ::= Loc "i" + Int 1) ;;
    "i" ::= Loc "i" + Int 1)).

Definition vowelinstem : fundef := Def ["k0"] (
  ForRange "i" (Loc "k0") (Glob "offset" + Int 1) (
    IfThen (~ Call "cons" [Loc "i"]) (Return (Int 1))) ;;
  Return (Int 0)).

Definition doublec : fundef := Def ["j"; "word"; "k0"] (
  IfThen (Loc "j" < Loc "k0" + Int 1) (Return (Int 0)) ;;
  IfThen (Index (Loc "word") (Loc "j")
          != Index (Loc "word") (Loc "j" - Int 1))
    (Return (Int 0)) ;;
  Return (Call "cons" [Loc "j"])).

Definition cvc : fundef := Def ["i"; "word"; "k0"] (
  IfThen (Loc "i" < Loc "k0" + Int 2
          \/ ~ Call "cons" [Loc "i"]
          \/ Call "cons" [Loc "i" - Int 1]
          \/ ~ Call "cons" [Loc "i" - Int 2])
    (Return (Int 0)) ;;
  "ch" ::= Index (Loc "word") (Loc "i") ;;
  IfThen (Loc "ch" == Str "w" \/ Loc "ch" == Str "x" \/ Loc "ch" == Str "y")
    (Return (Int 0)) ;;
  Return (Int 1)).

Definition ends : fundef := Def ["s"; "word"; "k"; "k0"; "offset"] (
  "length" ::= Len (Loc "s") ;;
  IfThen (Index (Loc "s") (Loc "length" - Int 1)
          != Index (Loc "word") (Loc "k"))
    (Return (Int 0)) ;;
  IfThen (Loc "length" > Loc "k" - Loc "k0" + Int 1) (Return (Int 0)) ;;
  IfThen (Slice (Loc "word") (Some (Loc "k" - Loc "length" + Int 1))
                (Some (Loc "k" + Int 1))
          != Loc "s")
    (Return (Int 0)) ;;
  "offset" ::= Loc "k" - Loc "length" ;;
  Return (Int 1)).

Definition setto : fundef := Def ["s"; "word"; "k"; "offset"] (
  "length" ::= Len (Loc "s") ;;
  "word" ::= Slice (Loc "word") None (Some (Loc "offset" + Int 1))
             + Loc "s"
             + Slice (Loc "word") (Some (Loc "offset" + Loc "length" + Int 1))
                     None ;;
  "k" ::= Loc "offset" + Loc "length").

Definition r : fundef := Def ["s"; "word"; "k"; "offset"] (
  IfThen (Call "m" [] > Int 0)
    (Do (Call "setto" [Loc "s"; Loc "word"; Loc "k"; Loc "offset"]))).

(** The calls that the step functions repeat.  [k0] is a module name in
    all of them; [offset] is one in [step1ab], [step1c], [step2] and
    [step3], and a parameter in [step4] and [step5]. *)
Local Notation "'ends_g' s" :=
  (Call "ends" [Str s; Loc "word"; Loc "k"; Glob "k0"; Glob "offset"])
  (at level 9, s at level 0).
Local Notation "'ends_l' s" :=
  (Call "ends" [Str s; Loc "word"; Loc "k"; Glob "k0"; Loc "offset"])
  (at level 9, s at level 0).
Local Notation "'setto_g' s" :=
  (Do (Call "setto" [Str s; Loc "word"; Loc "k"; Glob "offset"]))
  (at level 9, s at level 0).
Local Notation "'r_g' s" :=
  (Do (Call "r" [Str s; Loc "word"; Loc "k"; Glob "offset"]))
  (at level 9, s at level 0).

(** Line 193 of [a.py], the last [elif] of [step1ab], is indented by eight
    columns: less than the body of the branch [elif doublec(k):] before it
    (twelve), more than that [elif] itself (four).  It lines up with no
    [if], and Python refuses the file for it.  The function is read under
    each of the ways to bring the line into a block. *)
Inductive repair : Type :=
| Dedent193  (* line 193 at four columns: next branch after [elif doublec(k):] *)
| Indent193  (* lines 193-194 four columns deeper: [elif] of [if ch == ...] *)
| Indent188. (* line 188 at eight columns, the layout of the class-based
                stemmer: lines 188-194 continue [if ends("at", ...)] *)

Local Abbreviation ed_or_ing :=
  ((ends_g "ed" \/ ends_g "ing") /\ Call "vowelinstem" []).
Local Abbreviation undouble :=
  ("k" ::= Loc "k" - Int 1 ;;
   "ch" ::= Index (Loc "word") (Loc "k")).
Local Abbreviation is_l_s_z :=
  (Loc "ch" == Str "l" \/ Loc "ch" == Str "s" \/ Loc "ch" == Str "z").
Local Abbreviation short_stem :=
  (Call "m" [Glob "k0"; Glob "offset"] == Int 1 /\ Call "cvc" [Loc "k"]).

Definition step1ab (rp : repair) : fundef := Def ["word"; "k"] (
  IfThen (Index (Loc "word") (Loc "k") == Str "s") (
    IfElse (ends_g "sses")
      ("k" ::= Loc "k" - Int 2)
    (IfElse (ends_g "ies")
      (setto_g "i")
    (IfThen (Index (Loc "word") (Loc "k" - Int 1) != Str "s")
      ("k" ::= Loc "k" - Int 1)))) ;;
  IfElse (ends_g "eed")
    (IfThen (Call "m" [Glob "k0"; Glob "offset"] > Int 0)
      ("k" ::= Loc "k" - Int 1))
  (match rp with
  | Dedent193 =>
      IfElse ed_or_ing
        ("k" ::= Glob "offset" ;;
         IfElse (ends_g "at") (setto_g "ate")
         (IfElse (ends_g "bl") (setto_g "ble")
         (IfThen (ends_g "iz") (setto_g "ize"))))
      (IfElse (Call "doublec" [Loc "k"])
        (undouble ;;
         IfThen is_l_s_z ("k" ::= Loc "k" + Int 1))
      (IfThen short_stem
        (setto_g "e")))
  | Indent193 =>
      IfElse ed_or_ing
        ("k" ::= Glob "offset" ;;
         IfElse (ends_g "at") (setto_g "ate")
         (IfElse (ends_g "bl") (setto_g "ble")
         (IfThen (ends_g "iz") (setto_g "ize"))))
      (IfThen (Call "doublec" [Loc "k"])
        (undouble ;;
         IfElse is_l_s_z ("k" ::= Loc "k" + Int 1)
         (IfThen short_stem
           (setto_g "e"))))
  | Indent188 =>
      IfThen ed_or_ing
        ("k" ::= Glob "offset" ;;
         IfElse (ends_g "at") (setto_g "ate")
         (IfElse (ends_g "bl") (setto_g "ble")
         (IfElse (ends_g "iz") (setto_g "ize")
         (IfElse (Call "doublec" [Loc "k"])
           (undouble ;;
            IfThen is_l_s_z ("k" ::= Loc "k" + Int 1))
         (IfThen short_stem
           (setto_g "e"))))))
   end)).

(** The assignment of [step1c]: [word = word[:k] + 'i' + word[k+1:]]. *)
Definition step1c_rewrite : stmt :=
  "word" ::= Slice (Loc "word") None (Some (Loc "k"))
             + Str "i"
             + Slice (Loc "word") (Some (Loc "k" + Int 1)) None.

Definition step1c : fundef := Def ["word"; "k"] (
  IfThen (ends_g "y" /\ Call "vowelinstem" [])
    step1c_rewrite).

Definition step2 : fundef := Def ["word"; "k"] (
  IfElse (Index (Loc "word") (Loc "k" - Int 1) == Str "a") (
    IfElse (ends_g "ational") (r_g "ate")
    (IfThen (ends_g "tional") (r_g "tion")))
  (IfElse (Index (Loc "word") (Loc "k" - Int 1) == Str "c") (
    IfElse (ends_g "enci") (r_g "ence")
    (IfThen (ends_g "anci") (r_g "ance")))
  (IfElse (Index (Loc "word") (Loc "k" - Int 1) == Str "e") (
    IfThen (ends_g "izer") (r_g "ize"))
  (IfElse (Index (Loc "word") (Loc "k" - Int 1) == Str "l") (
    IfElse (ends_g "bli") (r_g "ble")
    (IfElse (ends_g "alli") (r_g "al")
    (IfElse (ends_g "entli") (r_g "ent")
    (IfElse (ends_g "eli") (r_g "e")
    (IfThen (ends_g "ousli") (r_g "ous"))))))
  (IfElse (Index (Loc "word") (Loc "k" - Int 1) == Str "o") (
    IfElse (ends_g "ization") (r_g "ize")
    (IfElse (ends_g "ation") (r_g "ate")
    (IfThen (ends_g "ator") (r_g "ate"))))
  (IfElse (Index (Loc "word") (Loc "k" - Int 1) == Str "s") (
    IfElse (ends_g "alism") (r_g "al")
    (IfElse (ends_g "iveness") (r_g "ive")
    (IfElse (ends_g "fulness") (r_g "ful")
    (IfThen (ends_g "ousness") (r_g "ous")))))
  (IfElse (Index (Loc "word") (Loc "k" - Int 1) == Str "t") (
    IfElse (ends_g "aliti") (r_g "al")
    (IfElse (ends_g "iviti") (r_g "ive")
    (IfThen (ends_g "biliti") (r_g "ble"))))
  (IfThen (Index (Loc "word") (Loc "k" - Int 1) == Str "g") (
    IfThen (ends_g "logi") (r_g "log")))))))))).

Definition step3 : fundef := Def ["word"; "k"] (
  IfElse (Index (Loc "word") (Loc "k") == Str "e") (
    IfElse (ends_g "icate") (r_g "ic")
    (IfElse (ends_g "ative") (r_g "")
    (IfThen (ends_g "alize") (r_g "al"))))
  (IfElse (Index (Loc "word") (Loc "k") == Str "i") (
    IfThen (ends_g "iciti") (r_g "ic"))
  (IfElse (Index (Loc "word") (Loc "k") == Str "l") (
    IfElse (ends_g "ical") (r_g "ic")
    (IfThen (ends_g "ful") (r_g "")))
  (IfThen (Index (Loc "word") (Loc "k") == Str "s") (
    IfThen (ends_g "ness") (r_g "")))))).

Definition step4 : fundef := Def ["word"; "k"; "offset"] (
  IfElse (Index (Loc "word") (Loc "k" - Int 1) == Str "a") (
    IfElse (ends_l "al") Pass ReturnNone)
  (IfElse (Index (Loc "word") (Loc "k" - Int 1) == Str "c") (
    IfElse (ends_l "ance") Pass
    (IfElse (ends_l "ence") Pass ReturnNone))
  (IfElse (Index (Loc "word") (Loc "k" - Int 1) == Str "e") (
    IfElse (ends_l "er") Pass ReturnNone)
  (IfElse (Index (Loc "word") (Loc "k" - Int 1) == Str "i") (
    IfElse (ends_l "ic") Pass ReturnNone)
  (IfElse (Index (Loc "word") (Loc "k" - Int 1) == Str "l") (
    IfElse (ends_l "able") Pass
    (IfElse (ends_l "ible") Pass ReturnNone))
  (IfElse (Index (Loc "word") (Loc "k" - Int 1) == Str "n") (
    IfElse (ends_l "ant") Pass
    (IfElse (ends_l "ement") Pass
    (IfElse (ends_l "ment") Pass
    (IfElse (ends_l "ent") Pass ReturnNone))))
  (IfElse (Index (Loc "word") (Loc "k" - Int 1) == Str "o") (
    IfElse (ends_l "ion"
            /\ (Index (Loc "word") (Loc "offset") == Str "s"
                \/ Index (Loc "word") (Loc "offset") == Str "t"))
      Pass
    (IfElse (ends_l "ou") Pass ReturnNone))
  (IfElse (Index (Loc "word") (Loc "k" - Int 1) == Str "s") (
    IfElse (ends_l "ism") Pass ReturnNone)
  (IfElse (Index (Loc "word") (Loc "k" - Int 1) == Str "t") (
    IfElse (ends_l "ate") Pass
    (IfElse (ends_l "iti") Pass ReturnNone))
  (IfElse (Index (Loc "word") (Loc "k" - Int 1) == Str "u") (
    IfElse (ends_l "ous") Pass ReturnNone)
  (IfElse (Index (Loc "word") (Loc "k" - Int 1) == Str "v") (
    IfElse (ends_l "ive") Pass ReturnNone)
  (IfElse (Index (Loc "word") (Loc "k" - Int 1) == Str "z") (
    IfElse (ends_l "ize") Pass ReturnNone)
  ReturnNone))))))))))) ;;
  IfThen (Call "m" [Glob "k0"; Loc "offset"] > Int 1)
    ("k" ::= Loc "offset")).

Definition step5 : fundef := Def ["word"; "k"; "offset"] (
  "offset" ::= Loc "k" ;;
  IfThen (Index (Loc "word") (Loc "k") == Str "e") (
    "a" ::= Call "m" [Glob "k0"; Loc "offset"] ;;
    IfThen (Loc "a" > Int 1
            \/ (Loc "a" == Int 1 /\ ~ Call "cvc" [Loc "k" - Int 1]))
      ("k" ::= Loc "k" - Int 1)) ;;
  IfThen (Index (Loc "word") (Loc "k") == Str "l"
          /\ Call "doublec" [Loc "k"]
          /\ Call "m" [Glob "k0"; Loc "offset"] > Int 1)
    ("k" ::= Loc "k" - Int 1)).

(** The first statements of [stem] ("copy the parameters into statics"). *)
Definition stem_copy : stmt :=
  "word" ::= Loc "p" ;;
  "k" ::= Loc "offset" ;;
  "k0" ::= Loc "i".

Definition stem : fundef :=
  Def ["p"; "i"; "j"; "word"; "k"; "k0"; "offset"] (
  stem_copy ;;
  IfThen (Loc "k" <= Loc "k0" + Int 1) (Return (Loc "word")) ;;
  Do (Call "step1ab" [Loc "word"; Loc "k"]) ;;
  Do (Call "step1c" [Loc "word"; Loc "k"]) ;;
  Do (Call "step2" [Loc "word"; Loc "k"]) ;;
  Do (Call "step3" [Loc "word"; Loc "k"]) ;;
  Do (Call "step4" [Loc "word"; Loc "k"]) ;;
  Do (Call "step5" [Loc "word"; Loc "k"]) ;;
  Return (Slice (Loc "word") (Some (Loc "k0")) (Some (Loc "k" + Int 1)))).

(** The names that [a.py] binds to functions.  In a call the name of the
    function is resolved here. *)
Definition defs (rp : repair) (f : string) : option fundef :=
  if String.eqb f "__init__" then Some __init__
  else if String.eqb f "cons" then Some cons
  else if String.eqb f "m" then Some m
  else if String.eqb f "vowelinstem" then Some vowelinstem
  else if String.eqb f "doublec" then Some doublec
  else if String.eqb f "cvc" then Some cvc
  else if String.eqb f "ends" then Some ends
  else if String.eqb f "setto" then Some setto
  else if String.eqb f "r" then Some r
  else if String.eqb f "step1ab" then Some (step1ab rp)
  else if String.eqb f "step1c" then Some step1c
  else if String.eqb f "step2" then Some step2
  else if String.eqb f "step3" then Some step3
  else if String.eqb f "step4" then Some step4
  else if String.eqb f "step5" then Some step5
  else if String.eqb f "stem" then Some stem
  else None.

(** The module namespace apart from the functions, as [a.py] leaves it: no
    statement at module level binds [k0], [offset] or [k]. *)
Definition module_globals : frame := [].

(** The same, for a caller that has bound [k0] and [offset] in the module
    before it calls in. *)
Definition patched_globals (k0 offset : Z) : frame :=
  [("k0", VInt k0); ("offset", VInt offset)].

(** The script at the end of [a.py], run at module level, where the frame is
    the module namespace.  [print] is a builtin and is not among [defs];
    the run does not get to it. *)
Definition script : stmt :=
  "word" ::= Str "processing" ;;
  "q" ::= Call "stem" [Loc "word"; Int 0; Len (Loc "word") - Int 1] ;;
  Do (Call "print" [Loc "q"]).

End A.

(** ** Calling the stemmer *)

Import Py.

(** [stem] on the whole word [w], as its docstring has it: [p] is the word,
    [i] is 0 and [j] the offset of the last letter.  [word], [k] and [k0] get
    the values that [__init__] gives them; [stem] overwrites the three.
    [offset] is the offset of the last letter, since that is where [stem]
    takes the end [k] of the word from. *)
Definition stem_word (rp : A.repair) (G : frame) (n : nat) (w : string)
  : res val :=
  call (A.defs rp) G n "stem"
    [VStr w; VInt 0; VInt (len w - 1); VStr ""; VInt 0; VInt 0;
     VInt (len w - 1)].

(** The test [stem(stem(w)) == stem(w)]. *)
Definition stem_twice_eq (rp : A.repair) (G : frame) (n : nat) (w : string)
  : res val :=
  let* once := stem_word rp G n w in
  let* twice := match once with
                | VStr s => stem_word rp G n s
                | _ => Err (TypeError (Operand "stem"))
                end in
  let* again := stem_word rp G n w in
  Ok (VBool (py_eq twice again)).

(** The test [len(stem(w)) <= len(w)]. *)
Definition stem_length_le (rp : A.repair) (G : frame) (n : nat) (w : string)
  : res val :=
  let* v := stem_word rp G n w in
  match v with
  | VStr s => Ok (VBool (Z.leb (len s) (len w)))
  | _ => Err (TypeError (Operand "len"))
  end.

(** The letters that are vowels wherever they stand. *)
Definition is_aeiou (c : ascii) : bool :=
  existsb (Ascii.eqb c) ["a"; "e"; "i"; "o"; "u"]%char.

(** [region] ends with the string [s]. *)
Definition ends_with (region s : string) : Prop :=
  exists pre, region = pre ++ s.

(** The letters on which [step4] looks for a suffix. *)
Definition step4_letter (c : ascii) : bool :=
  existsb (Ascii.eqb c)
    ["a"; "c"; "e"; "i"; "l"; "n"; "o"; "s"; "t"; "u"; "v"; "z"]%char.

(** ** Python strings *)

Lemma get_in_range (s : string) :
  forall n : nat, (n < String.length s)%nat -> exists c, String.get n s = Some c.
Proof.
  induction s as [|a s IH]; intros n Hn; simpl in Hn; [lia|].
  destruct n as [|n]; simpl; [now exists a|].
  apply IH; lia.
Qed.

Lemma py_index_get (s : string) (i : Z) :
  0 <= i < len s ->
  exists c, String.get (Z.to_nat i) s = Some c
            /\ py_index s i = Ok (VStr (String c "")).
Proof.
  intros Hi. unfold py_index.
  replace (Z.ltb i (- len s) || Z.leb (len s) i)%bool with false
    by (symmetry; apply orb_false_iff; split;
        [apply Z.ltb_ge|apply Z.leb_gt]; lia).
  replace (Z.ltb i 0) with false by (symmetry; apply Z.ltb_ge; lia).
  destruct (get_in_range s (Z.to_nat i)) as [c Hc]; [unfold len in Hi; lia|].
  exists c. now rewrite Hc.
Qed.

Lemma py_slice_in_range (w : string) (a b : Z) :
  0 <= a <= b -> b <= len w ->
  py_slice w (Some a) (Some b)
  = substring (Z.to_nat a) (Z.to_nat b - Z.to_nat a) w.
Proof.
  intros Ha Hb. unfold py_slice, clamp.
  replace (Z.ltb a 0) with false by (symmetry; apply Z.ltb_ge; lia).
  replace (Z.ltb b 0) with false by (symmetry; apply Z.ltb_ge; lia).
  rewrite !Z.min_l by lia. f_equal. lia.
Qed.

Lemma py_eq_str (s t : string) : py_eq (VStr s) (VStr t) = String.eqb s t.
Proof. reflexivity. Qed.

Lemma py_eq_char (c d : ascii) :
  py_eq (VStr (String c "")) (VStr (String d "")) = Ascii.eqb c d.
Proof. unfold py_eq. simpl. now destruct (Ascii.eqb c d). Qed.

Lemma length_append (s t : string) :
  String.length (s ++ t) = (String.length s + String.length t)%nat.
Proof. induction s as [|c s IH]; simpl; [reflexivity|now rewrite IH]. Qed.

Lemma length_substring (w : string) :
  forall n m : nat,
    (n + m <= String.length w)%nat -> String.length (substring n m w) = m.
Proof.
  induction w as [|c w IH]; intros [|n] [|m] H; simpl in *;
    try reflexivity; try lia.
  - f_equal. apply IH. lia.
  - apply IH. lia.
  - apply IH. lia.
Qed.

Lemma substring_add (w : string) :
  forall n a b : nat,
    substring n (a + b) w = substring n a w ++ substring (n + a) b w.
Proof.
  induction w as [|c w IH]; intros n a b.
  - destruct n, a, b; reflexivity.
  - destruct n as [|n].
    + destruct a as [|a]; [reflexivity|].
      simpl. f_equal. apply (IH 0%nat).
    + simpl. apply IH.
Qed.

Lemma append_inj_length (a : string) :
  forall a' b b' : string,
    String.length a = String.length a' -> a ++ b = a' ++ b' ->
    a = a' /\ b = b'.
Proof.
  induction a as [|c a IH]; intros [|c' a'] b b' Hl H; simpl in *;
    try discriminate; [now split|].
  injection H as -> H. destruct (IH a' b b') as [-> ->]; [lia|assumption|].
  now split.
Qed.

(** The letters [k0..k] of [w] end with [s] exactly when [s] is no longer
    than they are and is the piece of [w] that stops at [k]. *)
Lemma ends_with_substring (w s : string) (k0 k : nat) :
  (k0 <= k < String.length w)%nat ->
  ends_with (substring k0 (k + 1 - k0) w) s
  <-> (String.length s <= k + 1 - k0)%nat
      /\ substring (k + 1 - String.length s) (String.length s) w = s.
Proof.
  intros Hk. split.
  - intros [pre Hpre].
    assert (Hlen : (String.length pre + String.length s = k + 1 - k0)%nat).
    { rewrite <- length_append, <- Hpre. apply length_substring. lia. }
    split; [lia|].
    replace (k + 1 - k0)%nat with (String.length pre + String.length s)%nat
      in Hpre by lia.
    rewrite substring_add in Hpre.
    apply append_inj_length in Hpre; [|apply length_substring; lia].
    destruct Hpre as [_ Hs].
    replace (k + 1 - String.length s)%nat with (k0 + String.length pre)%nat
      by lia.
    exact Hs.
  - intros [Hlen Hs].
    exists (substring k0 (k + 1 - k0 - String.length s) w).
    replace (k + 1 - k0)%nat
      with ((k + 1 - k0 - String.length s) + String.length s)%nat at 1 by lia.
    rewrite substring_add.
    replace (k0 + (k + 1 - k0 - String.length s))%nat
      with (k + 1 - String.length s)%nat by lia.
    now rewrite Hs.
Qed.

(** ** Running the program *)

Lemma activation_S (defs : string -> option fundef) (G : frame) (n : nat)
  (f : string) (vs : list val) :
  activation defs G (S n) f vs =
  match defs f with
  | None => Raised (NameError f)
  | Some d =>
      match bind_params (params d) vs with
      | None =>
          Raised (TypeError (Arity f (List.length (params d)) (List.length vs)))
      | Some fr => body d (env_at defs G n) fr
      end
  end.
Proof. reflexivity. Qed.

(** Symbolic execution by [cbn]: the statement and expression forms unfold
    when they are applied to their surroundings and a frame; the operations
    on strings and the calls are left for rewriting. *)
#[local] Arguments call : simpl never.
#[local] Arguments activation : simpl never.
#[local] Arguments py_index : simpl never.
#[local] Arguments py_slice : simpl never.
#[local] Arguments len : simpl never.
#[local] Arguments Ascii.eqb !a !b.
#[local] Arguments String.eqb !s1 !s2.
#[local] Arguments Z.add : simpl nomatch.
#[local] Arguments Z.sub : simpl nomatch.
#[local] Arguments Z.compare : simpl nomatch.
#[local] Arguments Z.eqb : simpl nomatch.
#[local] Arguments py_add : simpl nomatch.
#[local] Arguments py_sub : simpl nomatch.
#[local] Arguments py_order : simpl nomatch.
#[local] Arguments py_eq : simpl nomatch.
#[local] Arguments truthy : simpl nomatch.
#[local] Arguments Seq s1 s2 E fr /.
#[local] Arguments IfElse c s1 s2 E fr /.
#[local] Arguments IfThen c s E fr /.
#[local] Arguments Assign x e E fr /.
#[local] Arguments Do e E fr /.
#[local] Arguments Return e E fr /.
#[local] Arguments ReturnNone E fr /.
#[local] Arguments Pass E fr /.
#[local] Arguments Break E fr /.
#[local] Arguments While c s E fr /.
#[local] Arguments ForRange x lo hi s E fr /.
#[local] Arguments Call f args E fr /.
#[local] Arguments Loc x E fr /.
#[local] Arguments Glob x E fr /.
#[local] Arguments Int n E fr /.
#[local] Arguments Str s E fr /.
#[local] Arguments binop f a b E fr /.
#[local] Arguments Add a b E fr /.
#[local] Arguments Sub a b E fr /.
#[local] Arguments CmpEq a b E fr /.
#[local] Arguments CmpNe a b E fr /.
#[local] Arguments CmpLt a b E fr /.
#[local] Arguments CmpGt a b E fr /.
#[local] Arguments CmpLe a b E fr /.
#[local] Arguments Not a E fr /.
#[local] Arguments Or a b E fr /.
#[local] Arguments And a b E fr /.
#[local] Arguments Index a i E fr /.
#[local] Arguments Slice a lo hi E fr /.
#[local] Arguments Len a E fr /.
#[local] Arguments env_at defs G n /.
#[local] Arguments A.stem_copy E fr /.
#[local] Arguments A.step1c_rewrite E fr /.

(** Case analysis on what execution is stuck on: the innermost term under
    the case analyses and the sequencing of a scrutinee. *)
Ltac case_stuck x :=
  lazymatch x with
  | bind ?y _ => case_stuck y
  | match ?y with _ => _ end => case_stuck y
  | result_of ?y => case_stuck y
  | _ => let E := fresh "E" in destruct x eqn:E
  end.

Ltac case_scrutinee :=
  match goal with
  | H : ?t = _ |- context [match ?t with _ => _ end] => rewrite H
  | |- context [match ?x with _ => _ end] => case_stuck x
  end.

Ltac raised := left; eexists; reflexivity.

(** ** Calls with the wrong number of arguments *)

Lemma bind_params_length (ps : list string) :
  forall (vs : list val) (fr : frame),
    bind_params ps vs = Some fr -> List.length ps = List.length vs.
Proof.
  induction ps as [|x ps IH]; intros [|v vs] fr Hb; try discriminate;
    [reflexivity|].
  simpl in Hb. destruct (bind_params ps vs) as [fr'|] eqn:Hb'; [|discriminate].
  simpl. f_equal. eapply IH, Hb'.
Qed.

Lemma call_arity (rp : A.repair) (G : frame) (n : nat) (f : string)
  (d : fundef) (vs : list val) :
  A.defs rp f = Some d ->
  List.length (params d) <> List.length vs ->
  exists e, call (A.defs rp) G n f vs = Err e.
Proof.
  intros Hd Hlen. destruct n as [|n]; [now exists OutOfFuel|].
  unfold call. rewrite activation_S, Hd.
  destruct (bind_params (params d) vs) as [fr|] eqn:Hb; [|eexists; reflexivity].
  apply bind_params_length in Hb. contradiction.
Qed.

(** [cons] takes three arguments.  [cons] itself, [m], [vowelinstem],
    [doublec] and [cvc] call it with one. *)
Lemma cons_one_argument (rp : A.repair) (G : frame) (n : nat) (v : val) :
  call (A.defs rp) G (S n) "cons" [v] = Err (TypeError (Arity "cons" 3 1)).
Proof. reflexivity. Qed.

(** [doublec] takes three arguments; [step1ab] and [step5] call it with one. *)
Lemma doublec_one_argument (rp : A.repair) (G : frame) (n : nat) (v : val) :
  call (A.defs rp) G (S n) "doublec" [v]
  = Err (TypeError (Arity "doublec" 3 1)).
Proof. reflexivity. Qed.

(** [cvc] takes three arguments; [step1ab] and [step5] call it with one. *)
Lemma cvc_one_argument (rp : A.repair) (G : frame) (n : nat) (v : val) :
  call (A.defs rp) G (S n) "cvc" [v] = Err (TypeError (Arity "cvc" 3 1)).
Proof. reflexivity. Qed.

(** [vowelinstem] takes one argument; [step1ab] and [step1c] call it with
    none. *)
Lemma vowelinstem_no_argument (rp : A.repair) (G : frame) (n : nat) :
  call (A.defs rp) G (S n) "vowelinstem" []
  = Err (TypeError (Arity "vowelinstem" 1 0)).
Proof. reflexivity. Qed.

(** [m] takes two arguments; [r] calls it with none, so that no replacement
    of [step2] or [step3] is made. *)
Lemma r_raises (rp : A.repair) (G : frame) (n : nat) (s word k offset : val) :
  call (A.defs rp) G (S (S n)) "r" [s; word; k; offset]
  = Err (TypeError (Arity "m" 2 0)).
Proof. reflexivity. Qed.

(** [step4] and [step5] take three arguments; [stem] calls them with two. *)
Lemma step4_two_arguments (rp : A.repair) (G : frame) (n : nat) (w k : val) :
  call (A.defs rp) G (S n) "step4" [w; k]
  = Err (TypeError (Arity "step4" 3 2)).
Proof. reflexivity. Qed.

(** ** The predicates *)

(** What [cons] does at a position [i] that holds the letter [c]. *)
Lemma cons_by_cases (rp : A.repair) (G : frame) (n : nat) (w : string)
  (i k0 : Z) (c : ascii) :
  py_index w i = Ok (VStr (String c "")) ->
  call (A.defs rp) G (S (S n)) "cons" [VInt i; VStr w; VInt k0]
  = if is_aeiou c then Ok (VInt 0)
    else if Ascii.eqb c "y" then
      if Z.eqb i k0 then Ok (VInt 1) else Err (TypeError (Arity "cons" 3 1))
    else Ok (VInt 1).
Proof.
  intros Hc. unfold call at 1. rewrite activation_S. cbn.
  rewrite !Hc. cbn. rewrite !py_eq_char. unfold is_aeiou. cbn.
  destruct (Ascii.eqb c "a"); cbn; [reflexivity|].
  destruct (Ascii.eqb c "e"); cbn; [reflexivity|].
  destruct (Ascii.eqb c "i"); cbn; [reflexivity|].
  destruct (Ascii.eqb c "o"); cbn; [reflexivity|].
  destruct (Ascii.eqb c "u"); cbn; [reflexivity|].
  rewrite !Hc. cbn. rewrite py_eq_char.
  destruct (Ascii.eqb c "y"); cbn; [|reflexivity].
  rewrite cons_one_argument.
  destruct (Z.eqb i k0); reflexivity.
Qed.

(** [m] returns 0 when its range is empty and raises otherwise, at its first
    call of [cons]: no measure other than 0 is ever returned. *)
Lemma m_returns_zero (rp : A.repair) (G : frame) (n : nat) (a b v : val) :
  call (A.defs rp) G n "m" [a; b] = Ok v -> v = VInt 0.
Proof.
  destruct n as [|n]; [discriminate|].
  unfold call at 1. rewrite activation_S. cbn.
  destruct (call_arity rp G n "cons" A.cons [a] eq_refl ltac:(discriminate))
    as [e He].
  destruct (py_order ">" a b) as [c|e']; cbn; [|discriminate].
  destruct c; cbn; rewrite ?He; cbn; intros H; try discriminate.
  now injection H as <-.
Qed.

(** The value of [ends] and the frame it returns from, for a suffix [s]
    that is not empty and a region [k0..k] inside [w]: the value is 1
    exactly when the region ends with [s], and then [offset] is
    [k - len s] in the frame of [ends]. *)
Lemma ends_return_value (rp : A.repair) (G : frame) (n : nat) (s w : string)
  (k k0 off : Z) :
  s <> "" -> 0 <= k0 <= k -> k < len w ->
  exists b : bool,
    activation (A.defs rp) G (S n) "ends"
      [VStr s; VStr w; VInt k; VInt k0; VInt off]
    = Returned (VInt (if b then 1 else 0))
        [("s", VStr s); ("word", VStr w); ("k", VInt k); ("k0", VInt k0);
         ("offset", VInt (if b then k - len s else off));
         ("length", VInt (len s))]
    /\ (b = true <-> ends_with (py_slice w (Some k0) (Some (k + 1))) s).
Proof.
  intros Hs Hk0 Hk.
  assert (Hls : 1 <= len s).
  { unfold len. destruct s; [contradiction|simpl; lia]. }
  destruct (py_index_get s (len s - 1)) as (c1 & Hg1 & Hi1); [lia|].
  destruct (py_index_get w k) as (c2 & Hg2 & Hi2); [lia|].
  assert (Hspec : ends_with (py_slice w (Some k0) (Some (k + 1))) s
                  <-> (String.length s <= Z.to_nat k + 1 - Z.to_nat k0)%nat
                      /\ substring (Z.to_nat k + 1 - String.length s)
                           (String.length s) w = s).
  { rewrite py_slice_in_range by lia.
    replace (Z.to_nat (k + 1) - Z.to_nat k0)%nat
      with (Z.to_nat k + 1 - Z.to_nat k0)%nat by lia.
    apply ends_with_substring. unfold len in Hk. lia. }
  rewrite activation_S. cbn. rewrite Hi1, Hi2. cbn. rewrite py_eq_char.
  destruct (Ascii.eqb_spec c1 c2) as [Hc|Hc]; cbn.
  2:{ exists false. split; [reflexivity|].
      split; [discriminate|]. intros He. exfalso. apply Hc.
      apply Hspec in He. destruct He as [Hle Hsub].
      assert (Hget : String.get (String.length s - 1) s
                     = String.get (Z.to_nat k) w).
      { rewrite <- Hsub at 2.
        rewrite substring_correct1 by (unfold len in Hls; lia).
        f_equal. unfold len in Hls. lia. }
      replace (Z.to_nat (len s - 1)) with (String.length s - 1)%nat in Hg1
        by (unfold len; lia).
      congruence. }
  destruct (Z.compare_spec (len s) (k - k0 + 1)) as [Hcmp|Hcmp|Hcmp]; cbn.
  3:{ exists false. split; [reflexivity|].
      split; [discriminate|]. intros He. apply Hspec in He.
      unfold len in Hcmp. lia. }
  all: rewrite py_slice_in_range by lia.
  all: replace (Z.to_nat (k - len s + 1))
         with (Z.to_nat k + 1 - String.length s)%nat by (unfold len in *; lia).
  all: replace (Z.to_nat (k + 1) - (Z.to_nat k + 1 - String.length s))%nat
         with (String.length s) by (unfold len in *; lia).
  all: rewrite py_eq_str.
  all: destruct (String.eqb_spec
                   (substring (Z.to_nat k + 1 - String.length s)
                      (String.length s) w) s) as [Hsub|Hsub]; cbn.
  all: first
    [ exists true; split; [reflexivity|]; split; [intros _|reflexivity];
      apply Hspec; split; [unfold len in *; lia|assumption]
    | exists false; split; [reflexivity|]; split; [discriminate|];
      intros He; apply Hspec in He; exfalso; apply Hsub, He ].
Qed.

(** ** The steps *)

(** [step1ab] reads the module name [k0] in the first test it makes after
    looking at the last letter, before it gets to line 193. *)
Lemma step1ab_unbound_k0 (rp : A.repair) (n : nat) (w : string) (k : Z) :
  0 <= k < len w ->
  call (A.defs rp) A.module_globals (S n) "step1ab" [VStr w; VInt k]
  = Err (NameError "k0").
Proof.
  intros Hk. destruct (py_index_get w k Hk) as (c & _ & Hc).
  unfold call. rewrite activation_S.
  destruct rp; cbn; rewrite Hc; cbn; destruct (py_eq _ _); reflexivity.
Qed.

(** [step1c] never gets to its assignment: when the word ends in [y] it
    calls [vowelinstem] with no argument.  An activation that completes
    leaves [word] as it was, in its own frame too. *)
Lemma step1c_never_rewrites (rp : A.repair) (G : frame) (n : nat) (w k : val) :
  let o := activation (A.defs rp) G n "step1c" [w; k] in
  (exists e, o = Raised e) \/ o = Next [("word", w); ("k", k)].
Proof.
  intros o. subst o. destruct n as [|n]; [raised|].
  rewrite activation_S. cbn.
  destruct (call_arity rp G n "vowelinstem" A.vowelinstem [] eq_refl
              ltac:(discriminate)) as [e He].
  rewrite He.
  repeat (case_scrutinee; cbn); auto; raised.
Qed.

(** [step4] never takes a suffix off: an activation that completes leaves
    [k] as it was, in its own frame too, since no measure exceeds 0. *)
Lemma step4_never_truncates (rp : A.repair) (G : frame) (n : nat)
  (w k off : val) :
  let o := activation (A.defs rp) G n "step4" [w; k; off] in
  (exists e, o = Raised e)
  \/ o = Next [("word", w); ("k", k); ("offset", off)]
  \/ o = Returned VNone [("word", w); ("k", k); ("offset", off)].
Proof.
  intros o. subst o. destruct n as [|n]; [raised|].
  rewrite activation_S. cbn.
  repeat (case_scrutinee;
          try match goal with
              | H : call _ _ _ "m" _ = Ok ?v |- _ =>
                  apply m_returns_zero in H; subst v
              end;
          cbn);
    auto; raised.
Qed.

(** ** The entry point *)

(** On a word of at most two letters [stem] returns at its guard, in every
    surroundings. *)
Lemma stem_body_short_word (E : env) (p : string) (j word k k0 : val) :
  (String.length p <= 2)%nat ->
  body A.stem E
    [("p", VStr p); ("i", VInt 0); ("j", j); ("word", word);
     ("k", k); ("k0", k0); ("offset", VInt (len p - 1))]
  = Returned (VStr p)
      [("p", VStr p); ("i", VInt 0); ("j", j); ("word", VStr p);
       ("k", VInt (len p - 1)); ("k0", VInt 0);
       ("offset", VInt (len p - 1))].
Proof.
  intros Hp.
  assert (Hcmp : Z.compare (len p - 1) 1 <> Gt).
  { rewrite Z.compare_gt_iff. unfold len. lia. }
  cbn. destruct (Z.compare (len p - 1) 1); try contradiction; reflexivity.
Qed.

Lemma stem_short_word (rp : A.repair) (G : frame) (n : nat) (p : string)
  (j word k k0 : val) :
  (String.length p <= 2)%nat ->
  call (A.defs rp) G (S n) "stem"
    [VStr p; VInt 0; j; word; k; k0; VInt (len p - 1)]
  = Ok (VStr p).
Proof.
  intros Hp.
  assert (Hcmp : Z.compare (len p - 1) 1 <> Gt).
  { rewrite Z.compare_gt_iff. unfold len. lia. }
  unfold call. rewrite activation_S. cbn.
  destruct (Z.compare (len p - 1) 1); try contradiction; reflexivity.
Qed.

(** On a word of three letters or more, [stem] gets to [step1ab], which
    reads the module name [k0] that nothing binds. *)
Lemma stem_long_word_unbound_k0 (rp : A.repair) (n : nat) (p : string)
  (j word k k0 : val) :
  (3 <= String.length p)%nat ->
  call (A.defs rp) A.module_globals (S (S n)) "stem"
    [VStr p; VInt 0; j; word; k; k0; VInt (len p - 1)]
  = Err (NameError "k0").
Proof.
  intros Hp.
  assert (Hlen : len p - 1 > 1) by (unfold len; lia).
  unfold call at 1. rewrite activation_S. cbn.
  rewrite (proj2 (Z.compare_gt_iff _ _)) by lia. cbn.
  rewrite step1ab_unbound_k0 by (unfold len in *; lia).
  reflexivity.
Qed.

(** Whatever the module namespace holds, and whatever its arguments are,
    [stem] returns nothing but its first argument: past the guard, were the
    first four steps to complete, the call [step4(word, k)] passes two
    arguments to a function of three. *)
Lemma stem_returns_its_argument (rp : A.repair) (G : frame) (n : nat)
  (p i j word k k0 offset v : val) :
  call (A.defs rp) G n "stem" [p; i; j; word; k; k0; offset] = Ok v -> v = p.
Proof.
  destruct n as [|n]; [discriminate|].
  unfold call at 1. rewrite activation_S. cbn.
  destruct (py_add i (VInt 1)) as [a|e]; cbn; [|discriminate].
  destruct (py_order "<=" offset a) as [c|e]; cbn; [|discriminate].
  assert (Hret : result_of (Returned p
            [("p", p); ("i", i); ("j", j); ("word", p); ("k", offset);
             ("k0", i); ("offset", offset)]) = Ok v -> v = p)
    by (cbn; congruence).
  destruct (call_arity rp G n "step4" A.step4 [p; offset] eq_refl
              ltac:(discriminate)) as [e4 He4].
  destruct c; cbn; try exact Hret.
  destruct (call (A.defs rp) G n "step1ab" _); cbn; [|discriminate].
  destruct (call (A.defs rp) G n "step1c" _); cbn; [|discriminate].
  destruct (call (A.defs rp) G n "step2" _); cbn; [|discriminate].
  destruct (call (A.defs rp) G n "step3" _); cbn; [|discriminate].
  rewrite He4. discriminate.
Qed.

(** So [stem] raises on every word of three letters or more, whatever a
    caller has bound in the module. *)
Lemma stem_long_word_raises (rp : A.repair) (G : frame) (n : nat) (p : string) :
  (3 <= String.length p)%nat ->
  exists e, stem_word rp G n p = Err e.
Proof.
  intros Hp. unfold stem_word.
  destruct (call (A.defs rp) G n "stem" _) as [v|e] eqn:Hcall;
    [|now exists e].
  exfalso. pose proof Hcall as Hv. apply stem_returns_its_argument in Hv.
  subst v. destruct n as [|n]; [discriminate|].
  unfold call in Hcall. rewrite activation_S in Hcall. cbn in Hcall.
  rewrite (proj2 (Z.compare_gt_iff _ _)) in Hcall by (unfold len; lia).
  cbn in Hcall.
  destruct (call_arity rp G n "step4" A.step4 [VStr p; VInt (len p - 1)]
              eq_refl ltac:(discriminate)) as [e4 He4].
  destruct (call (A.defs rp) G n "step1ab" _); cbn in Hcall; [|discriminate].
  destruct (call (A.defs rp) G n "step1c" _); cbn in Hcall; [|discriminate].
  destruct (call (A.defs rp) G n "step2" _); cbn in Hcall; [|discriminate].
  destruct (call (A.defs rp) G n "step3" _); cbn in Hcall; [|discriminate].
  rewrite He4 in Hcall. discriminate.
Qed.

(** Where [stem] does return, the two tests hold: the stem is the word. *)
Lemma stem_twice_eq_where_stem_returns (rp : A.repair) (G : frame) (n : nat)
  (w : string) (v : val) :
  stem_word rp G n w = Ok v ->
  stem_twice_eq rp G n w = Ok (VBool true).
Proof.
  intros Hv. pose proof Hv as Hw.
  apply stem_returns_its_argument in Hw. subst v.
  unfold stem_twice_eq. rewrite Hv. cbn. rewrite Hv. cbn.
  now rewrite py_eq_str, String.eqb_refl.
Qed.

Lemma stem_length_le_where_stem_returns (rp : A.repair) (G : frame) (n : nat)
  (w : string) (v : val) :
  stem_word rp G n w = Ok v ->
  stem_length_le rp G n w = Ok (VBool true).
Proof.
  intros Hv. pose proof Hv as Hw.
  apply stem_returns_its_argument in Hw. subst v.
  unfold stem_length_le. rewrite Hv. cbn. now rewrite Z.leb_refl.
Qed.

(** ** The claims *)

(** C1.  [stem] raises on a well-formed word.  On "processing", the word of
    the script of [a.py], it gets to [step1ab], which reads the module name
    [k0] that nothing binds.  The call that the script itself makes,
    [stem(word, 0, len(word)-1)], passes three arguments to a function of
    seven. *)
Theorem stem_processing_raises (rp : A.repair) (n : nat) :
  stem_word rp A.module_globals (S (S n)) "processing" = Err (NameError "k0")
  /\ A.script (env_at (A.defs rp) [("word", VStr "processing")] (S n))
       A.module_globals
     = Raised (TypeError (Arity "stem" 7 3)).
Proof.
  split.
  - apply stem_long_word_unbound_k0. simpl. lia.
  - reflexivity.
Qed.

(** C2.  On a word [p] of at most two letters, [stem] called on the whole
    word (start 0, end [len p - 1]) returns [p] itself, whatever the other
    arguments and the module namespace are.  It does so without calling
    anything: the body returns [p] in every surroundings [E], also in one
    where every call would raise. *)
Theorem stem_short_word_unchanged (rp : A.repair) (G : frame) (n : nat)
  (p : string) (j word k k0 : val) :
  (String.length p <= 2)%nat ->
  call (A.defs rp) G (S n) "stem"
    [VStr p; VInt 0; j; word; k; k0; VInt (len p - 1)]
  = Ok (VStr p)
  /\ forall E : env,
       body A.stem E
         [("p", VStr p); ("i", VInt 0); ("j", j); ("word", word);
          ("k", k); ("k0", k0); ("offset", VInt (len p - 1))]
       = Returned (VStr p)
           [("p", VStr p); ("i", VInt 0); ("j", j); ("word", VStr p);
            ("k", VInt (len p - 1)); ("k0", VInt 0);
            ("offset", VInt (len p - 1))].
Proof.
  intros Hp. split.
  - now apply stem_short_word.
  - intros E. now apply stem_body_short_word.
Qed.

Lemma stem_short_word_unchanged_witness :
  (String.length "is" <= 2)%nat
  /\ stem_word A.Dedent193 A.module_globals 1 "is" = Ok (VStr "is").
Proof.
  split; [simpl; lia|].
  apply (stem_short_word_unchanged A.Dedent193 A.module_globals 0 "is"
           (VInt 1) (VStr "") (VInt 0) (VInt 0)).
  simpl. lia.
Defined.

(** C3.  None of the four reference words is mapped to its stem: on each of
    them [stem] raises [NameError] for [k0]. *)
Theorem stem_reference_vectors_raise (rp : A.repair) (n : nat) :
  stem_word rp A.module_globals (S (S n)) "caresses" = Err (NameError "k0")
  /\ stem_word rp A.module_globals (S (S n)) "ponies" = Err (NameError "k0")
  /\ stem_word rp A.module_globals (S (S n)) "ties" = Err (NameError "k0")
  /\ stem_word rp A.module_globals (S (S n)) "processing"
     = Err (NameError "k0").
Proof.
  repeat split; apply stem_long_word_unbound_k0; simpl; lia.
Qed.

(** C4.  The test [stem(stem(w)) == stem(w)] has no value on "caresses",
    which the docstring of [step1ab] sends to "caress" and "caress" to
    itself: the first call of [stem] raises. *)
Theorem stem_twice_caresses_raises (rp : A.repair) (n : nat) :
  stem_twice_eq rp A.module_globals (S (S n)) "caresses"
  = Err (NameError "k0").
Proof.
  unfold stem_twice_eq, stem_word.
  rewrite stem_long_word_unbound_k0 by (simpl; lia). reflexivity.
Qed.

(** C5.  The test [len(stem(w)) <= len(w)] has no value on "relational":
    [stem] raises, so there is no stem whose length could be compared. *)
Theorem stem_length_relational_raises (rp : A.repair) (n : nat) :
  stem_length_le rp A.module_globals (S (S n)) "relational"
  = Err (NameError "k0").
Proof.
  unfold stem_length_le, stem_word.
  rewrite stem_long_word_unbound_k0 by (simpl; lia). reflexivity.
Qed.

(** C6.  "canal" ends in -al after a stem of measure 1, and does not pass
    through [step4]: the step raises when it reads the module name [k0].
    It raises as well in the call [step4(word, k)] that [stem] makes, which
    misses an argument, and when a caller has bound [k0], in which case the
    measure cannot be taken because [m] calls [cons] with one argument. *)
Theorem step4_canal_raises (rp : A.repair) (n : nat) :
  call (A.defs rp) A.module_globals (S n) "step4"
    [VStr "canal"; VInt 4; VInt 2]
  = Err (NameError "k0")
  /\ call (A.defs rp) A.module_globals (S n) "step4" [VStr "canal"; VInt 4]
     = Err (TypeError (Arity "step4" 3 2))
  /\ call (A.defs rp) (A.patched_globals 0 2) (S (S (S n))) "step4"
       [VStr "canal"; VInt 4; VInt 2]
     = Err (TypeError (Arity "cons" 3 1)).
Proof.
  repeat split; vm_compute; reflexivity.
Qed.

(** C7.  On "processing" with [k = 9], [ends("ing", ...)] returns 1 and its
    own frame ends with [offset = 6]; the frame of the caller, which passed
    [offset = 9], still has [offset = 9] after the call. *)
Theorem ends_match_offset_not_set (rp : A.repair) (G : frame) (n : nat) :
  let caller :=
    [("word", VStr "processing"); ("k", VInt 9); ("k0", VInt 0);
     ("offset", VInt 9)] in
  let test :=
    Call "ends" [Str "ing"; Loc "word"; Loc "k"; Loc "k0"; Loc "offset"] in
  test (env_at (A.defs rp) G (S n)) caller = Ok (VInt 1)
  /\ Do test (env_at (A.defs rp) G (S n)) caller = Next caller
  /\ lookup "offset" caller = Some (VInt 9)
  /\ activation (A.defs rp) G (S n) "ends"
       [VStr "ing"; VStr "processing"; VInt 9; VInt 0; VInt 9]
     = Returned (VInt 1)
         [("s", VStr "ing"); ("word", VStr "processing"); ("k", VInt 9);
          ("k0", VInt 0); ("offset", VInt 6); ("length", VInt 3)].
Proof.
  repeat split; vm_compute; reflexivity.
Qed.

(** C8.  In "by" with [k0 = 0] the [y] at position 1 follows a consonant,
    so it is a vowel; [cons] raises instead of returning 0, because it calls
    itself with one argument. *)
Theorem cons_y_after_consonant_raises (rp : A.repair) (G : frame) (n : nat) :
  call (A.defs rp) G (S (S n)) "cons" [VInt 1; VStr "by"; VInt 0]
  = Err (TypeError (Arity "cons" 3 1)).
Proof.
  vm_compute. reflexivity.
Qed.

(** C9.  [setto] makes the replacement in the frame of its own activation:
    there [word] holds the rewritten buffer and [k] the new end when the
    function falls off its last statement, and the call yields [None].  In
    the frame [fr] of the caller nothing changes: after the statement
    [setto(...)], whatever its arguments, the caller goes on with [fr] as it
    was before the call.  Likewise the assignment of [step1c] rebinds [word]
    in the frame it runs on, which is that of [step1c], and the frame of
    [stem] after its statement [step1c(word, k)] is as it was before. *)
Theorem setto_step1c_rebind_only_locals (rp : A.repair) (G : frame) (n : nat) :
  (forall (s w : string) (k off : Z),
      activation (A.defs rp) G (S n) "setto"
        [VStr s; VStr w; VInt k; VInt off]
      = Next [("s", VStr s);
              ("word", VStr ((py_slice w None (Some (off + 1)) ++ s)
                             ++ py_slice w (Some (off + len s + 1)) None));
              ("k", VInt (off + len s));
              ("offset", VInt off);
              ("length", VInt (len s))])
  /\ (forall (args : list expr) (fr fr' : frame),
         Do (Call "setto" args) (env_at (A.defs rp) G n) fr = Next fr' ->
         fr' = fr)
  /\ (forall (E : env) (w : string) (k : Z),
         A.step1c_rewrite E [("word", VStr w); ("k", VInt k)]
         = Next [("word", VStr ((py_slice w None (Some k) ++ "i")
                                ++ py_slice w (Some (k + 1)) None));
                 ("k", VInt k)])
  /\ (forall fr fr' : frame,
         Do (Call "step1c" [Loc "word"; Loc "k"]) (env_at (A.defs rp) G n) fr
         = Next fr' ->
         fr' = fr).
Proof.
  split; [|split; [|split]].
  - intros s w k off. rewrite activation_S. cbn. reflexivity.
  - intros args fr fr' H. cbn in H.
    destruct (bind _ _) in H; [now injection H|discriminate].
  - intros E w k. reflexivity.
  - intros fr fr' H. cbn in H.
    destruct (bind _ _) in H; [now injection H|discriminate].
Qed.

Lemma setto_step1c_rebind_only_locals_witness :
  let G := A.patched_globals 0 2 in
  let E := env_at (A.defs A.Dedent193) G 3 in
  let step1ab_frame := [("word", VStr "ponies"); ("k", VInt 5)] in
  let stem_frame :=
    [("p", VStr "ponies"); ("i", VInt 0); ("j", VInt 5);
     ("word", VStr "ponies"); ("k", VInt 5); ("k0", VInt 0);
     ("offset", VInt 5)] in
  (Do (Call "setto" [Str "i"; Loc "word"; Loc "k"; Glob "offset"])
      E step1ab_frame = Next step1ab_frame
   /\ step1ab_frame = step1ab_frame)
  /\ (Do (Call "step1c" [Loc "word"; Loc "k"]) E stem_frame = Next stem_frame
      /\ stem_frame = stem_frame).
Proof.
  intros G E step1ab_frame stem_frame.
  assert (H1 : Do (Call "setto" [Str "i"; Loc "word"; Loc "k"; Glob "offset"])
                 E step1ab_frame = Next step1ab_frame)
    by (vm_compute; reflexivity).
  assert (H2 : Do (Call "step1c" [Loc "word"; Loc "k"]) E stem_frame
               = Next stem_frame)
    by (vm_compute; reflexivity).
  split; split; try assumption.
  - exact (proj1 (proj2 (setto_step1c_rebind_only_locals A.Dedent193 G 3))
             _ _ _ H1).
  - exact (proj2 (proj2 (proj2
             (setto_step1c_rebind_only_locals A.Dedent193 G 3))) _ _ H2).
Defined.

(** C10.  The outcome of [stem(p, i, j, word, k, k0, offset)] is the same
    for every [j]: two calls that differ only in [j] return the same object
    or raise the same exception.  The end [k] of the word is taken from
    [offset], and [j] stays in the frame as it was passed. *)
Theorem stem_ignores_j (rp : A.repair) (G : frame) (n : nat)
  (p i j j' word k k0 offset : val) :
  call (A.defs rp) G n "stem" [p; i; j; word; k; k0; offset]
  = call (A.defs rp) G n "stem" [p; i; j'; word; k; k0; offset]
  /\ forall E : env,
       A.stem_copy E
         [("p", p); ("i", i); ("j", j); ("word", word); ("k", k);
          ("k0", k0); ("offset", offset)]
       = Next [("p", p); ("i", i); ("j", j); ("word", p); ("k", offset);
               ("k0", i); ("offset", offset)].
Proof.
  split; [|reflexivity].
  destruct n as [|n]; [reflexivity|].
  unfold call at 1 2. rewrite !activation_S. cbn.
  repeat (case_scrutinee; cbn; try reflexivity).
Qed.

(** ** Further properties of the functions *)

(** *** The predicates *)

Lemma py_index_out_of_range (w : string) (i : Z) :
  i < - len w \/ len w <= i -> py_index w i = Err IndexError.
Proof.
  intros Hi. unfold py_index.
  replace (Z.ltb i (- len w) || Z.leb (len w) i)%bool with true; [reflexivity|].
  symmetry. apply orb_true_iff.
  destruct Hi; [left; apply Z.ltb_lt|right; apply Z.leb_le]; lia.
Qed.

(** X1.  At a position [i] inside the word that holds the letter [c],
    [cons] answers 0 for a, e, i, o, u, 1 for [y] at [k0] and for every
    other letter, and raises [TypeError] for a [y] elsewhere. *)
Theorem cons_classifies_letter (rp : A.repair) (G : frame) (n : nat)
  (w : string) (i k0 : Z) (c : ascii) :
  0 <= i < len w ->
  String.get (Z.to_nat i) w = Some c ->
  call (A.defs rp) G (S (S n)) "cons" [VInt i; VStr w; VInt k0]
  = if is_aeiou c then Ok (VInt 0)
    else if Ascii.eqb c "y" then
      if Z.eqb i k0 then Ok (VInt 1) else Err (TypeError (Arity "cons" 3 1))
    else Ok (VInt 1).
Proof.
  intros Hi Hc. apply cons_by_cases.
  destruct (py_index_get w i Hi) as (c' & Hc' & Hidx). congruence.
Qed.

Lemma cons_classifies_letter_witness :
  0 <= 1 < len "by"
  /\ String.get (Z.to_nat 1) "by" = Some "y"%char
  /\ call (A.defs A.Dedent193) A.module_globals 2 "cons"
       [VInt 1; VStr "by"; VInt 1]
     = Ok (VInt 1).
Proof.
  split; [vm_compute; split; congruence|]. split; [reflexivity|].
  apply (cons_classifies_letter A.Dedent193 A.module_globals 0 "by" 1 1 "y");
    [vm_compute; split; congruence|reflexivity].
Defined.

(** X2.  Outside the word ([i >= len(word)] or [i < -len(word)]), and so
    at every position of the empty word, [cons] raises [IndexError]. *)
Theorem cons_out_of_range (rp : A.repair) (G : frame) (n : nat)
  (w : string) (i k0 : Z) :
  i < - len w \/ len w <= i ->
  call (A.defs rp) G (S n) "cons" [VInt i; VStr w; VInt k0] = Err IndexError.
Proof.
  intros Hi. unfold call. rewrite activation_S. cbn.
  rewrite py_index_out_of_range by assumption. reflexivity.
Qed.

Lemma cons_out_of_range_witness :
  (0 < - len "" \/ len "" <= 0)
  /\ call (A.defs A.Dedent193) A.module_globals 1 "cons"
       [VInt 0; VStr ""; VInt 0]
     = Err IndexError.
Proof.
  split; [right; vm_compute; congruence|].
  apply (cons_out_of_range A.Dedent193 A.module_globals 0 "" 0 0).
  right. vm_compute. congruence.
Defined.

(** X3.  [m(k0, offset)] returns 0 when the range [k0..offset] is empty and
    raises [TypeError] otherwise, at its first call of [cons]: it never
    counts anything. *)
Theorem m_zero_or_raises (rp : A.repair) (G : frame) (n : nat) (a b : Z) :
  call (A.defs rp) G (S (S n)) "m" [VInt a; VInt b]
  = if Z.ltb b a then Ok (VInt 0) else Err (TypeError (Arity "cons" 3 1)).
Proof.
  unfold call at 1. rewrite activation_S. cbn.
  rewrite Z.ltb_antisym, Z.leb_compare.
  destruct (Z.compare a b); cbn; try reflexivity;
    rewrite cons_one_argument; reflexivity.
Qed.

(** X4.  [cvc(i, word, k0)] returns 0 when [i < k0 + 2] and raises
    [TypeError] otherwise, at its first call of [cons]: it never answers 1,
    and never looks at the word. *)
Theorem cvc_zero_or_raises (rp : A.repair) (G : frame) (n : nat)
  (w : val) (i k0 : Z) :
  call (A.defs rp) G (S (S n)) "cvc" [VInt i; w; VInt k0]
  = if Z.ltb i (k0 + 2) then Ok (VInt 0)
    else Err (TypeError (Arity "cons" 3 1)).
Proof.
  unfold call at 1. rewrite activation_S. cbn.
  unfold Z.ltb. destruct (Z.compare i (k0 + 2)); cbn; try reflexivity;
    rewrite cons_one_argument; reflexivity.
Qed.

(** X5.  [vowelinstem(k0)] reads the end of its range from the module name
    [offset].  With [offset] unbound it raises [NameError]; with [offset]
    bound it returns 0 when the range [k0..offset] is empty and raises
    [TypeError] otherwise, at its first call of [cons]: it never finds a
    vowel. *)
Theorem vowelinstem_zero_or_raises (rp : A.repair) (n : nat) (a g o : Z) :
  call (A.defs rp) A.module_globals (S n) "vowelinstem" [VInt a]
  = Err (NameError "offset")
  /\ call (A.defs rp) (A.patched_globals g o) (S (S n)) "vowelinstem" [VInt a]
     = if Z.ltb o a then Ok (VInt 0) else Err (TypeError (Arity "cons" 3 1)).
Proof.
  split; [reflexivity|].
  unfold call at 1. rewrite activation_S. cbn.
  destruct (Z.ltb_spec o a) as [Hlt|Hge].
  - replace (Z.to_nat (o + 1 - a)) with O by lia. reflexivity.
  - destruct (Z.to_nat (o + 1 - a)) as [|m] eqn:Hm; [lia|].
    cbn. rewrite cons_one_argument. reflexivity.
Qed.

(** X6.  At a position [j] with [0 < j < len(word)], [doublec] returns 0
    when [j < k0 + 1] or when the letters at [j] and [j - 1] differ, and
    raises [TypeError] when they are equal (it then calls [cons] with one
    argument): it never reports a double consonant. *)
Theorem doublec_zero_or_raises (rp : A.repair) (G : frame) (n : nat)
  (w : string) (j k0 : Z) (c1 c2 : ascii) :
  0 < j < len w ->
  String.get (Z.to_nat j) w = Some c1 ->
  String.get (Z.to_nat (j - 1)) w = Some c2 ->
  call (A.defs rp) G (S (S n)) "doublec" [VInt j; VStr w; VInt k0]
  = if Z.ltb j (k0 + 1) then Ok (VInt 0)
    else if Ascii.eqb c1 c2 then Err (TypeError (Arity "cons" 3 1))
    else Ok (VInt 0).
Proof.
  intros Hj H1 H2.
  destruct (py_index_get w j) as (d1 & Hd1 & Hi1); [lia|].
  destruct (py_index_get w (j - 1)) as (d2 & Hd2 & Hi2); [lia|].
  assert (d1 = c1) by congruence. assert (d2 = c2) by congruence. subst d1 d2.
  unfold call at 1. rewrite activation_S. cbn.
  unfold Z.ltb. destruct (Z.compare j (k0 + 1)); cbn; try reflexivity.
  all: rewrite Hi1, Hi2; cbn; rewrite py_eq_char.
  all: destruct (Ascii.eqb c1 c2); cbn; try reflexivity.
  all: rewrite cons_one_argument; reflexivity.
Qed.

Lemma doublec_zero_or_raises_witness :
  0 < 2 < len "all"
  /\ String.get (Z.to_nat 2) "all" = Some "l"%char
  /\ String.get (Z.to_nat (2 - 1)) "all" = Some "l"%char
  /\ call (A.defs A.Dedent193) A.module_globals 2 "doublec"
       [VInt 2; VStr "all"; VInt 0]
     = Err (TypeError (Arity "cons" 3 1)).
Proof.
  split; [vm_compute; split; congruence|].
  split; [reflexivity|]. split; [reflexivity|].
  apply (doublec_zero_or_raises A.Dedent193 A.module_globals 0 "all" 2 0
           "l" "l");
    [vm_compute; split; congruence|reflexivity|reflexivity].
Defined.

(** *** The suffix operators *)

(** X7.  For a suffix [s] that is not empty and a region [k0..k] inside
    the word, [ends] returns 1 when the region ends with [s] and 0 when it
    does not; it does not raise. *)
Theorem ends_decides_suffix (rp : A.repair) (G : frame) (n : nat)
  (s w : string) (k k0 off : Z) :
  s <> "" -> 0 <= k0 <= k -> k < len w ->
  (ends_with (py_slice w (Some k0) (Some (k + 1))) s ->
   call (A.defs rp) G (S n) "ends" [VStr s; VStr w; VInt k; VInt k0; VInt off]
   = Ok (VInt 1))
  /\ (~ ends_with (py_slice w (Some k0) (Some (k + 1))) s ->
      call (A.defs rp) G (S n) "ends"
        [VStr s; VStr w; VInt k; VInt k0; VInt off]
      = Ok (VInt 0)).
Proof.
  intros Hs Hk0 Hk.
  destruct (ends_return_value rp G n s w k k0 off Hs Hk0 Hk) as (b & Hb & Hiff).
  unfold call. rewrite Hb. destruct b; split; intros H; try reflexivity.
  - exfalso. apply H, Hiff. reflexivity.
  - apply Hiff in H. discriminate.
Qed.

Lemma ends_decides_suffix_witness :
  "ing" <> ""
  /\ 0 <= 0 <= 9 /\ 9 < len "processing"
  /\ ends_with (py_slice "processing" (Some 0) (Some (9 + 1))) "ing"
  /\ call (A.defs A.Dedent193) A.module_globals 1 "ends"
       [VStr "ing"; VStr "processing"; VInt 9; VInt 0; VInt 0]
     = Ok (VInt 1).
Proof.
  assert (H1 : "ing" <> "") by discriminate.
  assert (H2 : 0 <= 0 <= 9) by lia.
  assert (H3 : 9 < len "processing") by (vm_compute; reflexivity).
  assert (H4 : ends_with (py_slice "processing" (Some 0) (Some (9 + 1))) "ing")
    by (exists "process"; reflexivity).
  split; [exact H1|]. split; [exact H2|]. split; [exact H3|].
  split; [exact H4|].
  exact (proj1 (ends_decides_suffix A.Dedent193 A.module_globals 0
                  "ing" "processing" 9 0 0 H1 H2 H3) H4).
Defined.

(** X8.  [ends] raises [IndexError] on the empty suffix, whatever the word
    and the cursors, and on a suffix that is not empty when [k] is outside
    the word, and so always on the empty word. *)
Theorem ends_index_errors (rp : A.repair) (G : frame) (n : nat)
  (s w : string) (k k0 off : Z) :
  s = "" \/ k < - len w \/ len w <= k ->
  call (A.defs rp) G (S n) "ends" [VStr s; VStr w; VInt k; VInt k0; VInt off]
  = Err IndexError.
Proof.
  intros [->|Hk]; [reflexivity|].
  destruct s as [|c s]; [reflexivity|].
  destruct (py_index_get (String c s) (len (String c s) - 1))
    as (d & _ & Hd); [unfold len; simpl; lia|].
  unfold call. rewrite activation_S. cbn.
  rewrite Hd. cbn.
  rewrite py_index_out_of_range by assumption. reflexivity.
Qed.

Lemma ends_index_errors_witness :
  ("" = "" \/ 0 < - len "cat" \/ len "cat" <= 0)
  /\ call (A.defs A.Dedent193) A.module_globals 1 "ends"
       [VStr ""; VStr "cat"; VInt 0; VInt 0; VInt 0]
     = Err IndexError.
Proof.
  split; [left; reflexivity|].
  apply (ends_index_errors A.Dedent193 A.module_globals 0 "" "cat" 0 0 0).
  left. reflexivity.
Defined.

Lemma length_substring_min (w : string) :
  forall n m : nat,
    String.length (substring n m w) = Nat.min m (String.length w - n).
Proof.
  induction w as [|c w IH]; intros [|n] [|m]; simpl; try reflexivity.
  - now rewrite IH, Nat.sub_0_r.
  - apply IH.
  - apply IH.
Qed.

Lemma substring_app_prefix (a : string) :
  forall (b : string) (m : nat),
    substring 0 (String.length a + m) (a ++ b) = a ++ substring 0 m b.
Proof.
  induction a as [|c a IH]; intros b m; simpl; [reflexivity|].
  now rewrite IH.
Qed.

Lemma substring_0_0 (w : string) : substring 0 0 w = "".
Proof. now destruct w. Qed.

Lemma append_empty_r (a : string) : a ++ "" = a.
Proof. induction a as [|c a IH]; simpl; [reflexivity|now rewrite IH]. Qed.

Lemma py_slice_prefix (w : string) (b : Z) :
  0 <= b ->
  py_slice w None (Some b) = substring 0 (Z.to_nat (Z.min b (len w))) w.
Proof.
  intros Hb. unfold py_slice, clamp.
  replace (Z.ltb b 0) with false by (symmetry; apply Z.ltb_ge; lia).
  now rewrite Z.sub_0_r.
Qed.

Lemma py_slice_from_0 (w : string) (hi : option Z) :
  py_slice w (Some 0) hi = py_slice w None hi.
Proof.
  unfold py_slice, clamp. simpl.
  rewrite Z.min_l by (unfold len; lia). reflexivity.
Qed.

Lemma len_py_slice_prefix (w : string) (b : Z) :
  0 <= b -> len (py_slice w None (Some b)) = Z.min b (len w).
Proof.
  intros Hb. rewrite py_slice_prefix by assumption.
  unfold len. rewrite length_substring_min. lia.
Qed.

Lemma len_py_slice_suffix (w : string) (a : Z) :
  0 <= a -> len (py_slice w (Some a) None) = len w - Z.min a (len w).
Proof.
  intros Ha. unfold py_slice, clamp.
  replace (Z.ltb a 0) with false by (symmetry; apply Z.ltb_ge; lia).
  unfold len. rewrite length_substring_min. lia.
Qed.

(** The buffer that [setto] builds: its length, and its letters up to the
    new end. *)
Lemma setto_buffer (s w : string) (off : Z) :
  -1 <= off < len w ->
  let w' := (py_slice w None (Some (off + 1)) ++ s)
            ++ py_slice w (Some (off + len s + 1)) None in
  len w' = Z.max (len w) (off + 1 + len s)
  /\ py_slice w' None (Some (off + len s + 1))
     = py_slice w None (Some (off + 1)) ++ s.
Proof.
  intros Hoff w'.
  assert (Hs : 0 <= len s) by (unfold len; lia).
  assert (Hpre : len (py_slice w None (Some (off + 1))) = off + 1).
  { rewrite len_py_slice_prefix by lia. lia. }
  assert (Hsuf : len (py_slice w (Some (off + len s + 1)) None)
                 = len w - Z.min (off + len s + 1) (len w)).
  { apply len_py_slice_suffix. lia. }
  assert (Hlen : len w' = Z.max (len w) (off + 1 + len s)).
  { unfold w'. unfold len at 1. rewrite !length_append.
    unfold len in *. lia. }
  split; [exact Hlen|].
  rewrite py_slice_prefix by lia.
  set (p := py_slice w None (Some (off + 1))) in *.
  replace (Z.to_nat (Z.min (off + len s + 1) (len w')))
    with (String.length (p ++ s) + 0)%nat.
  - unfold w'. rewrite substring_app_prefix, substring_0_0.
    apply append_empty_r.
  - rewrite length_append. unfold len in *. lia.
Qed.

(** X9.  For [-1 <= offset < len(word)], [setto] builds in its own frame a
    buffer that is never shorter than the one it was given: its length is
    the larger of [len(word)] and [offset + 1 + len(s)].  Up to the new end
    [k = offset + len(s)] the buffer is [word[:offset+1]] followed by [s]. *)
Theorem setto_overwrites_in_place (rp : A.repair) (G : frame) (n : nat)
  (s w : string) (k off : Z) :
  -1 <= off < len w ->
  let w' := (py_slice w None (Some (off + 1)) ++ s)
            ++ py_slice w (Some (off + len s + 1)) None in
  activation (A.defs rp) G (S n) "setto" [VStr s; VStr w; VInt k; VInt off]
  = Next [("s", VStr s); ("word", VStr w'); ("k", VInt (off + len s));
          ("offset", VInt off); ("length", VInt (len s))]
  /\ len w' = Z.max (len w) (off + 1 + len s)
  /\ py_slice w' None (Some (off + len s + 1))
     = py_slice w None (Some (off + 1)) ++ s.
Proof.
  intros Hoff w'. split.
  - rewrite activation_S. cbn. reflexivity.
  - exact (setto_buffer s w off Hoff).
Qed.

Lemma setto_overwrites_in_place_witness :
  -1 <= 2 < len "ponies"
  /\ activation (A.defs A.Dedent193) A.module_globals 1 "setto"
       [VStr "i"; VStr "ponies"; VInt 5; VInt 2]
     = Next [("s", VStr "i"); ("word", VStr "ponies"); ("k", VInt 3);
             ("offset", VInt 2); ("length", VInt 1)].
Proof.
  assert (H : -1 <= 2 < len "ponies") by (vm_compute; split; congruence).
  split; [exact H|].
  exact (proj1 (setto_overwrites_in_place A.Dedent193 A.module_globals 0
                  "i" "ponies" 5 2 H)).
Defined.

(** X10.  The two operators compose to a suffix replacement, each in its
    own frame.  When the letters [0..k] of the word are [pre] followed by a
    suffix [s1] that is not empty, [ends(s1, ...)] returns 1 and leaves
    [offset = k - len(s1)] in its frame, and [setto(s2, word, k, offset)]
    called with that [offset] ends with a buffer whose letters [0..k] (for
    its new [k]) are [pre] followed by [s2]. *)
Theorem ends_then_setto_replaces_suffix (rp : A.repair) (G : frame) (n : nat)
  (pre s1 s2 w : string) (k off : Z) :
  s1 <> "" -> 0 <= k < len w ->
  py_slice w (Some 0) (Some (k + 1)) = pre ++ s1 ->
  exists w' : string,
    activation (A.defs rp) G (S n) "ends"
      [VStr s1; VStr w; VInt k; VInt 0; VInt off]
    = Returned (VInt 1)
        [("s", VStr s1); ("word", VStr w); ("k", VInt k); ("k0", VInt 0);
         ("offset", VInt (k - len s1)); ("length", VInt (len s1))]
    /\ activation (A.defs rp) G (S n) "setto"
         [VStr s2; VStr w; VInt k; VInt (k - len s1)]
       = Next [("s", VStr s2); ("word", VStr w');
               ("k", VInt (k - len s1 + len s2));
               ("offset", VInt (k - len s1)); ("length", VInt (len s2))]
    /\ py_slice w' (Some 0) (Some (k - len s1 + len s2 + 1)) = pre ++ s2.
Proof.
  intros Hs1 Hk Hreg.
  assert (Hends : ends_with (py_slice w (Some 0) (Some (k + 1))) s1)
    by (exists pre; exact Hreg).
  assert (Hlen : len pre + len s1 = k + 1).
  { assert (H : len (py_slice w (Some 0) (Some (k + 1))) = k + 1).
    { rewrite py_slice_from_0, len_py_slice_prefix by lia. lia. }
    rewrite Hreg in H. unfold len in H. rewrite length_append in H.
    unfold len. lia. }
  assert (Hpre : py_slice w None (Some (k - len s1 + 1)) = pre).
  { rewrite py_slice_from_0, py_slice_prefix in Hreg by lia.
    rewrite py_slice_prefix by (unfold len in *; lia).
    replace (Z.to_nat (Z.min (k + 1) (len w)))
      with (String.length pre + String.length s1)%nat in Hreg
      by (unfold len in *; lia).
    rewrite substring_add in Hreg.
    apply append_inj_length in Hreg.
    - replace (Z.to_nat (Z.min (k - len s1 + 1) (len w)))
        with (String.length pre) by (unfold len in *; lia).
      apply Hreg.
    - rewrite length_substring_min. unfold len in *. lia. }
  destruct (ends_return_value rp G n s1 w k 0 off Hs1) as (b & Hb & Hiff);
    [lia|lia|].
  assert (b = true) by (apply Hiff, Hends). subst b.
  assert (Hoff : -1 <= k - len s1 < len w) by (unfold len in *; lia).
  destruct (setto_buffer s2 w (k - len s1) Hoff) as [_ Hbuf].
  eexists. split; [exact Hb|]. split.
  - rewrite activation_S. cbn. reflexivity.
  - rewrite py_slice_from_0.
    cbv zeta in Hbuf. rewrite Hbuf, Hpre. reflexivity.
Qed.

Lemma ends_then_setto_replaces_suffix_witness :
  "ies" <> "" /\ 0 <= 5 < len "ponies"
  /\ py_slice "ponies" (Some 0) (Some (5 + 1)) = "pon" ++ "ies"
  /\ exists w' : string,
       activation (A.defs A.Dedent193) A.module_globals 1 "ends"
         [VStr "ies"; VStr "ponies"; VInt 5; VInt 0; VInt 0]
       = Returned (VInt 1)
           [("s", VStr "ies"); ("word", VStr "ponies"); ("k", VInt 5);
            ("k0", VInt 0); ("offset", VInt (5 - len "ies"));
            ("length", VInt (len "ies"))]
       /\ activation (A.defs A.Dedent193) A.module_globals 1 "setto"
            [VStr "i"; VStr "ponies"; VInt 5; VInt (5 - len "ies")]
          = Next [("s", VStr "i"); ("word", VStr w');
                  ("k", VInt (5 - len "ies" + len "i"));
                  ("offset", VInt (5 - len "ies"));
                  ("length", VInt (len "i"))]
       /\ py_slice w' (Some 0) (Some (5 - len "ies" + len "i" + 1))
          = "pon" ++ "i".
Proof.
  assert (H1 : "ies" <> "") by discriminate.
  assert (H2 : 0 <= 5 < len "ponies") by (vm_compute; split; congruence).
  assert (H3 : py_slice "ponies" (Some 0) (Some (5 + 1)) = "pon" ++ "ies")
    by reflexivity.
  split; [exact H1|]. split; [exact H2|]. split; [exact H3|].
  exact (ends_then_setto_replaces_suffix A.Dedent193 A.module_globals 0
           "pon" "ies" "i" "ponies" 5 0 H1 H2 H3).
Defined.

(** *** The steps *)

(** [r] never returns: it calls [m] with no argument before anything else. *)
Lemma r_never_returns (rp : A.repair) (G : frame) (n : nat) (vs : list val)
  (v : val) :
  call (A.defs rp) G n "r" vs = Ok v -> False.
Proof.
  destruct n as [|n]; [discriminate|].
  assert (Hd : A.defs rp "r" = Some A.r) by reflexivity.
  destruct (call_arity rp G n "m" A.m [] eq_refl ltac:(discriminate))
    as [e He].
  unfold call at 1. rewrite activation_S, Hd.
  destruct (bind_params (params A.r) vs) as [fr|]; intros H; cbn in H;
    [|discriminate].
  rewrite He in H. discriminate.
Qed.

Ltac no_replacement :=
  match goal with
  | H : call _ _ _ "r" _ = Ok _ |- _ =>
      exfalso; exact (r_never_returns _ _ _ _ _ H)
  | H : call _ _ _ "m" _ = Ok ?v |- _ =>
      apply m_returns_zero in H; subst v
  end.

Ltac run_cases :=
  repeat (case_scrutinee; try no_replacement; cbn).

(** X11.  [step2] never maps a suffix: whatever its arguments and the
    module namespace, an activation either raises or falls off the end with
    [word] and [k] as they were passed, in its own frame too (every
    replacement goes through [r], which raises). *)
Theorem step2_never_replaces (rp : A.repair) (G : frame) (n : nat)
  (w k : val) :
  let o := activation (A.defs rp) G n "step2" [w; k] in
  (exists e, o = Raised e) \/ o = Next [("word", w); ("k", k)].
Proof.
  intros o. subst o. destruct n as [|n]; [raised|].
  rewrite activation_S. cbn.
  run_cases; auto; raised.
Qed.

(** X12.  [step3] never maps a suffix: an activation either raises or falls
    off the end with [word] and [k] as they were passed. *)
Theorem step3_never_replaces (rp : A.repair) (G : frame) (n : nat)
  (w k : val) :
  let o := activation (A.defs rp) G n "step3" [w; k] in
  (exists e, o = Raised e) \/ o = Next [("word", w); ("k", k)].
Proof.
  intros o. subst o. destruct n as [|n]; [raised|].
  rewrite activation_S. cbn.
  run_cases; auto; raised.
Qed.

Lemma call_arity_never_returns (rp : A.repair) (G : frame) (n : nat)
  (f : string) (d : fundef) (vs : list val) (v : val) :
  A.defs rp f = Some d ->
  List.length (params d) <> List.length vs ->
  call (A.defs rp) G n f vs = Ok v -> False.
Proof.
  intros Hd Hlen H. destruct (call_arity rp G n f d vs Hd Hlen) as [e He].
  congruence.
Qed.

Ltac wrong_arity :=
  match goal with
  | H : call (A.defs ?rp) ?G ?n ?f ?vs = Ok ?v |- _ =>
      exfalso;
      refine (call_arity_never_returns rp G n f _ vs v eq_refl _ H);
      discriminate
  end.

Ltac run_cases' :=
  repeat (case_scrutinee; try first [wrong_arity | no_replacement]; cbn).

(** X13.  [step5] never shortens the word: whatever its arguments and the
    module namespace, an activation either raises or falls off the end with
    [word] and [k] as they were passed, in its own frame too (no measure
    exceeds 0 and [doublec] is called with one argument). *)
Theorem step5_never_shortens (rp : A.repair) (G : frame) (n : nat)
  (w k off : val) :
  let o := activation (A.defs rp) G n "step5" [w; k; off] in
  (exists e, o = Raised e)
  \/ exists fr, o = Next fr
                /\ lookup "word" fr = Some w /\ lookup "k" fr = Some k.
Proof.
  intros o. subst o. destruct n as [|n]; [raised|].
  rewrite activation_S. cbn.
  run_cases'; try raised; right; eexists; repeat split; reflexivity.
Qed.


(** A run of [step1ab] that completes: with [offset < k0] bound in the
    module, "feeds" loses its [s] in the frame of the step. *)
Example step1ab_feeds (rp : A.repair) (n : nat) :
  activation (A.defs rp) (A.patched_globals 0 (-1)) (S (S (S n))) "step1ab"
    [VStr "feeds"; VInt 4]
  = Next [("word", VStr "feeds"); ("k", VInt 3)].
Proof. destruct rp; vm_compute; reflexivity. Qed.

(** X15.  [step1c] never turns a [y] into an [i].  With the module as
    [a.py] leaves it, every call raises [NameError] for [k0]; whatever the
    module namespace, an activation either raises or falls off the end with
    [word] and [k] as they were passed, in its own frame too. *)
Theorem step1c_never_turns_y (rp : A.repair) (G : frame) (n : nat)
  (w k : val) :
  call (A.defs rp) A.module_globals (S n) "step1c" [w; k]
  = Err (NameError "k0")
  /\ let o := activation (A.defs rp) G n "step1c" [w; k] in
     (exists e, o = Raised e) \/ o = Next [("word", w); ("k", k)].
Proof.
  split; [reflexivity|]. apply step1c_never_rewrites.
Qed.

(** X16.  With the module as [a.py] leaves it, [step4] called with its
    three arguments returns [None] when the letter before the last is none
    of a, c, e, i, l, n, o, s, t, u, v, z, and raises [NameError] for [k0]
    when it is one of them.  Whatever the module namespace and the
    arguments, an activation that completes leaves [word] and [k] as they
    were passed: no suffix is taken off. *)
Theorem step4_returns_or_unbound_k0 (rp : A.repair) (G : frame) (n : nat)
  (w : string) (k : Z) (off : val) (c : ascii) :
  0 < k <= len w ->
  String.get (Z.to_nat (k - 1)) w = Some c ->
  call (A.defs rp) A.module_globals (S n) "step4" [VStr w; VInt k; off]
  = (if step4_letter c then Err (NameError "k0") else Ok VNone)
  /\ let o := activation (A.defs rp) G n "step4" [VStr w; VInt k; off] in
     (exists e, o = Raised e)
     \/ o = Next [("word", VStr w); ("k", VInt k); ("offset", off)]
     \/ o = Returned VNone [("word", VStr w); ("k", VInt k); ("offset", off)].
Proof.
  intros Hk Hc. split; [|apply step4_never_truncates].
  destruct (py_index_get w (k - 1)) as (c' & Hc' & Hi); [lia|].
  assert (c' = c) by congruence. subst c'.
  unfold call. rewrite activation_S. cbn.
  rewrite !Hi. cbn. rewrite !py_eq_char. unfold step4_letter. cbn.
  repeat (match goal with
          | |- context [Ascii.eqb c ?d] => destruct (Ascii.eqb c d); cbn
          end; try reflexivity).
Qed.

Lemma step4_returns_or_unbound_k0_witness :
  0 < 2 <= len "cat"
  /\ String.get (Z.to_nat (2 - 1)) "cat" = Some "a"%char
  /\ call (A.defs A.Dedent193) A.module_globals 1 "step4"
       [VStr "cat"; VInt 2; VInt 0]
     = Err (NameError "k0").
Proof.
  assert (H1 : 0 < 2 <= len "cat") by (vm_compute; split; congruence).
  assert (H2 : String.get (Z.to_nat (2 - 1)) "cat" = Some "a"%char)
    by reflexivity.
  split; [exact H1|]. split; [exact H2|].
  exact (proj1 (step4_returns_or_unbound_k0 A.Dedent193 A.module_globals 0
                  "cat" 2 (VInt 0) "a" H1 H2)).
Defined.

(** *** The entry point *)


(** X18.  Of its seven parameters [stem] reads three: the outcome of a call
    depends on [p], [i] and [offset] only.  [j] is never read, and [word],
    [k] and [k0] are overwritten before they are. *)
Theorem stem_reads_p_i_offset (rp : A.repair) (G : frame) (n : nat)
  (p i offset j word k k0 j' word' k' k0' : val) :
  call (A.defs rp) G n "stem" [p; i; j; word; k; k0; offset]
  = call (A.defs rp) G n "stem" [p; i; j'; word'; k'; k0'; offset].
Proof.
  destruct n as [|n]; [reflexivity|].
  unfold call at 1 2. rewrite !activation_S. cbn.
  repeat (case_scrutinee; cbn; try reflexivity).
Qed.

(** X19.  The [offset] that is passed to [ends] and to [step5] is never
    read: both assign to the parameter before any use, so the outcome of a
    call is the same for every value of it. *)
Theorem offset_argument_is_dead (rp : A.repair) (G : frame) (n : nat)
  (s w k k0 off off' : val) :
  call (A.defs rp) G n "ends" [s; w; k; k0; off]
  = call (A.defs rp) G n "ends" [s; w; k; k0; off']
  /\ call (A.defs rp) G n "step5" [w; k; off]
     = call (A.defs rp) G n "step5" [w; k; off'].
Proof.
  destruct n as [|n]; [split; reflexivity|].
  split; unfold call at 1 2; rewrite !activation_S; cbn;
    repeat (case_scrutinee; cbn; try reflexivity).
Qed.
